(** * core-js-101, [src/05-objects-tasks.js]: objects, the JSON bridge and
      the CSS selector builder.

    The JavaScript module is embedded shallowly.  Every [CreateSelector]
    instance lives in a store and is named by a reference, so that a method
    which mutates [this] and then returns [this] is a store transformer that
    hands back the reference it was called on.  A [throw] ends the
    computation with the store as it was when the error was raised. *)

From Stdlib Require Import ZArith Lia Ascii String DecimalString.
From Stdlib Require DecimalFacts DecimalPos.
From Stdlib Require Import Floats.PrimFloat.
From stdpp Require Import base option list strings.

(** ** JavaScript errors and completions *)

(** [new Error(message)]; [TypeError] and [SyntaxError] are what the engine
    itself raises. *)
Inductive Error : Type :=
| new_Error (message : string)
| TypeError (message : string)
| SyntaxError (message : string).

Definition message (e : Error) : string :=
  match e with new_Error m | TypeError m | SyntaxError m => m end.

(** How a call completes: normally with a value, or abruptly with a thrown
    error. *)
Inductive outcome (A : Type) : Type :=
| Return (a : A)
| Throw (e : Error).
Arguments Return {A} a.
Arguments Throw {A} e.

(** Computations over a store [S]: the final store is reported on both kinds
    of completion. *)
Definition M (S A : Type) : Type := S -> outcome A * S.

Definition ret {S A} (a : A) : M S A := fun h => (Return a, h).

Definition throw {S A} (e : Error) : M S A := fun h => (Throw e, h).

Definition bind {S A B} (k : A -> M S B) (m : M S A) : M S B :=
  fun h =>
    match m h with
    | (Return a, h') => k a h'
    | (Throw e, h') => (Throw e, h')
    end.

#[export] Instance M_ret {S} : MRet (M S) := @ret S.
#[export] Instance M_bind {S} : MBind (M S) := @bind S.

(** ** [Array.prototype.indexOf] on an array of strings *)

Fixpoint indexOf_from (i : Z) (arr : list string) (x : string) : Z :=
  match arr with
  | [] => (-1)%Z
  | y :: arr' => if String.eqb y x then i else indexOf_from (i + 1)%Z arr' x
  end.

Definition indexOf (arr : list string) (x : string) : Z := indexOf_from 0%Z arr x.

(** ** The [settings] object of a selector *)

Module Settings.

(** [null] is [None]; the three arrays hold the pushed strings in order. *)
Record t : Type := mk {
  element : option string;
  id : option string;
  class : list string;
  attr : list string;
  pseudoClass : list string;
  pseudoElement : option string
}.

Definition set_element (v : string) (d : t) : t :=
  mk (Some v) (id d) (class d) (attr d) (pseudoClass d) (pseudoElement d).

Definition set_id (v : string) (d : t) : t :=
  mk (element d) (Some v) (class d) (attr d) (pseudoClass d) (pseudoElement d).

Definition push_class (v : string) (d : t) : t :=
  mk (element d) (id d) (class d ++ [v]) (attr d) (pseudoClass d) (pseudoElement d).

Definition push_attr (v : string) (d : t) : t :=
  mk (element d) (id d) (class d) (attr d ++ [v]) (pseudoClass d) (pseudoElement d).

Definition push_pseudoClass (v : string) (d : t) : t :=
  mk (element d) (id d) (class d) (attr d) (pseudoClass d ++ [v]) (pseudoElement d).

Definition set_pseudoElement (v : string) (d : t) : t :=
  mk (element d) (id d) (class d) (attr d) (pseudoClass d) (Some v).

End Settings.

(** The values a property of [settings] can hold. *)
Inductive value : Type :=
| VUndefined
| VNull
| VString (s : string)
| VArray (items : list string).

Definition of_option (o : option string) : value :=
  match o with None => VNull | Some s => VString s end.

(** [Object.values(d)]: the own properties in the order the object literal
    of the constructor created them. *)
Definition Object_values (d : Settings.t) : list value :=
  [ of_option (Settings.element d); of_option (Settings.id d);
    VArray (Settings.class d); VArray (Settings.attr d);
    VArray (Settings.pseudoClass d); of_option (Settings.pseudoElement d) ].

(** JavaScript truthiness: [undefined], [null] and the empty string are
    falsy, every array is truthy. *)
Definition truthy (v : value) : bool :=
  match v with
  | VUndefined | VNull => false
  | VString s => negb (String.eqb s "")
  | VArray _ => true
  end.

(** [a || b] *)
Definition js_or (a b : value) : value := if truthy a then a else b.

Definition Array_isArray (v : value) : bool :=
  match v with VArray _ => true | _ => false end.

(** [v == null] *)
Definition is_nullish (v : value) : bool :=
  match v with VUndefined | VNull => true | _ => false end.

(** ** [class CreateSelector] *)

Module CreateSelector.

(** The instance fields that change.  [positionsElements] is assigned once by
    the constructor and only ever read, so it is the constant below. *)
Record t : Type := mk {
  settings : Settings.t;
  lastElement : string
}.

Definition set_settings (d : Settings.t) (o : t) : t := mk d (lastElement o).

Definition set_lastElement (k : string) (o : t) : t := mk (settings o) k.

(** A reference to an instance, and the store of all instances created so
    far; a reference is the position at which the instance was allocated. *)
Abbreviation ref := nat (only parsing).
Abbreviation heap := (list t) (only parsing).

Definition positionsElements : list string :=
  ["element"; "id"; "class"; "attr"; "pseudoClass"; "pseudoElement"].

(** The state the constructor sets up. *)
Definition fresh : t :=
  mk (Settings.mk None None [] [] [] None) "".

(** [new CreateSelector()] *)
Definition new : M heap ref :=
  fun h => (Return (length h), h ++ [fresh]).

(** Reading and writing the fields of [this].  A reference handed out by
    [new] is always allocated; using any other one is a [TypeError]. *)
Definition read (this : ref) : M heap t :=
  fun h =>
    match h !! this with
    | Some o => (Return o, h)
    | None => (Throw (TypeError "Cannot read properties of undefined"), h)
    end.

Definition write (this : ref) (o : t) : M heap unit :=
  fun h => (Return tt, <[this := o]> h).

Definition position (this : ref) (elPosition : string) : M heap unit :=
  o ← read this;
  if (indexOf positionsElements elPosition
        <? indexOf positionsElements (lastElement o))%Z
  then throw (new_Error "Selector parts should be arranged in the following order: element, id, class, attribute, pseudo-class, pseudo-element")
  else if (String.eqb elPosition "element" || String.eqb elPosition "id"
             || String.eqb elPosition "pseudoElement")
            && (indexOf positionsElements elPosition
                  =? indexOf positionsElements (lastElement o))%Z
  then throw (new_Error "Element, id and pseudo-element should not occur more then one time inside the selector")
  else write this (set_lastElement elPosition o).

Definition element (this : ref) (element : string) : M heap ref :=
  position this "element";;
  o ← read this;
  write this (set_settings (Settings.set_element element (settings o)) o);;
  mret this.

Definition id (this : ref) (id : string) : M heap ref :=
  position this "id";;
  o ← read this;
  write this (set_settings (Settings.set_id id (settings o)) o);;
  mret this.

Definition class (this : ref) (className : string) : M heap ref :=
  position this "class";;
  o ← read this;
  write this (set_settings (Settings.push_class className (settings o)) o);;
  mret this.

Definition attr (this : ref) (attr : string) : M heap ref :=
  position this "attr";;
  o ← read this;
  write this (set_settings (Settings.push_attr attr (settings o)) o);;
  mret this.

Definition pseudoClass (this : ref) (pseudoClass : string) : M heap ref :=
  position this "pseudoClass";;
  o ← read this;
  write this (set_settings (Settings.push_pseudoClass pseudoClass (settings o)) o);;
  mret this.

Definition pseudoElement (this : ref) (pseudoElement : string) : M heap ref :=
  position this "pseudoElement";;
  o ← read this;
  write this (set_settings (Settings.set_pseudoElement pseudoElement (settings o)) o);;
  mret this.

Definition before : list string := [""; "#"; "."; "["; ":"; "::"].
Definition after : list string := [""; ""; ""; "]"; ""; ""].

(** [arr[i]] as an operand of string [+]: a missing entry is [undefined]. *)
Definition at_index (arr : list string) (i : nat) : string :=
  default "undefined" (arr !! i).

(** [element.reduce(f, init)]; calling it on anything but an array is a
    [TypeError]. *)
Definition reduce (f : string -> string -> string) (init : string)
    (element : value) : M heap string :=
  match element with
  | VArray items => mret (fold_left f items init)
  | _ => throw (TypeError "element.reduce is not a function")
  end.

(** One round of the [for] loop of [stringify], for index [i]. *)
Definition stringify_body (d : Settings.t) (i : nat) (str : string)
    : M heap string :=
  let selec := default VUndefined (Object_values d !! i) in
  let element := js_or selec (VArray []) in
  let element :=
    if negb (Array_isArray element) && negb (is_nullish element)
    then match element with VString s => VArray [s] | _ => element end (* [element] *)
    else element in
  part ← reduce (fun prev current =>
                   ((prev +:+ at_index before i) +:+ current) +:+ at_index after i)
                "" element;
  mret (str +:+ part).

(** [for (let i = start; i < start + n; i += 1) str = body(i, str)] *)
Fixpoint for_loop (n : nat) (i : nat) (body : nat -> string -> M heap string)
    (str : string) : M heap string :=
  match n with
  | O => mret str
  | S n' => str' ← body i str; for_loop n' (S i) body str'
  end.

Definition stringify (this : ref) : M heap string :=
  o ← read this;
  for_loop (length before) 0 (stringify_body (settings o)) "".

End CreateSelector.

Abbreviation ref := nat (only parsing).
Abbreviation heap := (list CreateSelector.t) (only parsing).

(** ** [Combinator] and the values that answer [stringify()] *)

(** A [Combinator] is built once and never written afterwards, so it is a
    value; its operands are selectors: references to [CreateSelector]
    instances, or combinators again. *)
Inductive selector : Type :=
| Single (this : ref)
| Combinator (selector1 : selector) (combinator : string) (selector2 : selector).

(** [s.stringify()], dispatched on what [s] is; the second case is
    [Combinator.prototype.stringify]. *)
Fixpoint stringify (s : selector) : M heap string :=
  match s with
  | Single this => CreateSelector.stringify this
  | Combinator s1 comb s2 =>
      a ← stringify s1;
      b ← stringify s2;
      mret (a +:+ " " +:+ comb +:+ " " +:+ b)
  end.

(** ** The facade [cssSelectorBuilder] *)

Module cssSelectorBuilder.

Definition element (element : string) : M heap ref :=
  this ← CreateSelector.new; CreateSelector.element this element.

Definition id (id : string) : M heap ref :=
  this ← CreateSelector.new; CreateSelector.id this id.

Definition class (className : string) : M heap ref :=
  this ← CreateSelector.new; CreateSelector.class this className.

Definition attr (attr : string) : M heap ref :=
  this ← CreateSelector.new; CreateSelector.attr this attr.

Definition pseudoClass (pseudoClassName : string) : M heap ref :=
  this ← CreateSelector.new; CreateSelector.pseudoClass this pseudoClassName.

Definition pseudoElement (pseudoElementName : string) : M heap ref :=
  this ← CreateSelector.new; CreateSelector.pseudoElement this pseudoElementName.

Definition combine (selector1 : selector) (combinator : string)
    (selector2 : selector) : M heap selector :=
  mret (Combinator selector1 combinator selector2).

End cssSelectorBuilder.

(** ** Vocabulary of the specification *)

(** The six fragment categories; [kind_name] is the string each method passes
    to [position]. *)
Inductive Kind : Type :=
| KElement | KId | KClass | KAttr | KPseudoClass | KPseudoElement.

Definition kind_name (K : Kind) : string :=
  match K with
  | KElement => "element"
  | KId => "id"
  | KClass => "class"
  | KAttr => "attr"
  | KPseudoClass => "pseudoClass"
  | KPseudoElement => "pseudoElement"
  end.

Definition all_kinds : list Kind :=
  [KElement; KId; KClass; KAttr; KPseudoClass; KPseudoElement].

Definition Kind_eqb (K K' : Kind) : bool :=
  String.eqb (kind_name K) (kind_name K').

(** The singleton kinds: at most one fragment per selector. *)
Definition singleton (K : Kind) : bool :=
  match K with KElement | KId | KPseudoElement => true | _ => false end.

(** [rank K] is the index of [K] in the fixed order list, and the rank of
    [lastAddedKind] is the index of [lastElement] in the same list. *)
Definition rank (K : Kind) : Z :=
  indexOf CreateSelector.positionsElements (kind_name K).

Definition rank_last (o : CreateSelector.t) : Z :=
  indexOf CreateSelector.positionsElements (CreateSelector.lastElement o).

(** The two errors [position] throws, under the names of the specification. *)
Definition order_list : string :=
  "element, id, class, attribute, pseudo-class, pseudo-element".

Definition OrderViolation : Error :=
  new_Error ("Selector parts should be arranged in the following order: " +:+ order_list).

Definition DuplicateSingletonError : Error :=
  new_Error "Element, id and pseudo-element should not occur more then one time inside the selector".

(** The fragment-adding call of kind [K]. *)
Definition call (K : Kind) (this : ref) (v : string) : M heap ref :=
  match K with
  | KElement => CreateSelector.element this v
  | KId => CreateSelector.id this v
  | KClass => CreateSelector.class this v
  | KAttr => CreateSelector.attr this v
  | KPseudoClass => CreateSelector.pseudoClass this v
  | KPseudoElement => CreateSelector.pseudoElement this v
  end.

(** What that call does to [settings] once [position] has let it through. *)
Definition store (K : Kind) (v : string) (d : Settings.t) : Settings.t :=
  match K with
  | KElement => Settings.set_element v d
  | KId => Settings.set_id v d
  | KClass => Settings.push_class v d
  | KAttr => Settings.push_attr v d
  | KPseudoClass => Settings.push_pseudoClass v d
  | KPseudoElement => Settings.set_pseudoElement v d
  end.

(** The verdict of [position] on a call of kind [K] made on the state [o]:
    the error it throws, if any; and the state the call leaves otherwise. *)
Definition refusal (K : Kind) (o : CreateSelector.t) : option Error :=
  if (rank K <? rank_last o)%Z then Some OrderViolation
  else if singleton K && (rank K =? rank_last o)%Z
       then Some DuplicateSingletonError
       else None.

Definition added (K : Kind) (v : string) (o : CreateSelector.t) : CreateSelector.t :=
  CreateSelector.mk (store K v (CreateSelector.settings o)) (kind_name K).

(** A chain [this.k1(v1).k2(v2)...]: each call is made on what the previous
    one returned. *)
Fixpoint chain (this : ref) (calls : list (Kind * string)) : M heap ref :=
  match calls with
  | [] => mret this
  | (K, v) :: rest => this' ← call K this v; chain this' rest
  end.

(** The facade call for [K]. *)
Definition builder (K : Kind) (v : string) : M heap ref :=
  match K with
  | KElement => cssSelectorBuilder.element v
  | KId => cssSelectorBuilder.id v
  | KClass => cssSelectorBuilder.class v
  | KAttr => cssSelectorBuilder.attr v
  | KPseudoClass => cssSelectorBuilder.pseudoClass v
  | KPseudoElement => cssSelectorBuilder.pseudoElement v
  end.

(** A whole call sequence on one selector: the facade call, then the chain. *)
Definition build (calls : list (Kind * string)) : M heap ref :=
  match calls with
  | [] => CreateSelector.new
  | (K, v) :: rest => this ← builder K v; chain this rest
  end.

(** The same sequence as transitions on the state of the one instance: the
    error of the first refused call, if any, and the state reached. *)
Fixpoint run (calls : list (Kind * string)) (o : CreateSelector.t)
    : option Error * CreateSelector.t :=
  match calls with
  | [] => (None, o)
  | (K, v) :: rest =>
      match refusal K o with
      | Some e => (Some e, o)
      | None => run rest (added K v o)
      end
  end.

(** The fragments a call sequence adds for kind [K], in call order. *)
Definition fragments (K : Kind) (calls : list (Kind * string)) : list string :=
  map snd (filter (fun c => Kind_eqb (fst c) K) calls).

(** Conditions on a call sequence. *)
Fixpoint nondecreasing (ranks : list Z) : bool :=
  match ranks with
  | a :: (b :: _) as rest => (a <=? b)%Z && nondecreasing rest
  | _ => true
  end.

Definition ranks (calls : list (Kind * string)) : list Z :=
  map (fun c => rank (fst c)) calls.

Definition singletons_once (calls : list (Kind * string)) : bool :=
  forallb (fun K => negb (singleton K) || (length (fragments K calls) <=? 1))
          all_kinds.

(** The rendering in the words of the specification: each fragment with the
    decoration of its category. *)
Definition decorate (K : Kind) (v : string) : string :=
  match K with
  | KElement => v
  | KId => "#" +:+ v
  | KClass => "." +:+ v
  | KAttr => "[" +:+ v +:+ "]"
  | KPseudoClass => ":" +:+ v
  | KPseudoElement => "::" +:+ v
  end.

Definition spec_optional (K : Kind) (o : option string) : string :=
  match o with None => "" | Some v => decorate K v end.

Definition spec_repeated (K : Kind) (l : list string) : string :=
  String.concat "" (map (decorate K) l).

Definition spec_stringify (d : Settings.t) : string :=
  spec_optional KElement (Settings.element d)
  +:+ spec_optional KId (Settings.id d)
  +:+ spec_repeated KClass (Settings.class d)
  +:+ spec_repeated KAttr (Settings.attr d)
  +:+ spec_repeated KPseudoClass (Settings.pseudoClass d)
  +:+ spec_optional KPseudoElement (Settings.pseudoElement d).

(** A singleton that was set to the empty string, read as not set. *)
Definition nonempty (o : option string) : option string :=
  match o with
  | Some v => if String.eqb v "" then None else Some v
  | None => None
  end.

Definition omit_empty (d : Settings.t) : Settings.t :=
  Settings.mk (nonempty (Settings.element d)) (nonempty (Settings.id d))
    (Settings.class d) (Settings.attr d) (Settings.pseudoClass d)
    (nonempty (Settings.pseudoElement d)).

(** What one call contributes to the output, and the output grouped by
    category, each group in call order. *)
Definition piece (K : Kind) (v : string) : string :=
  if singleton K && String.eqb v "" then "" else decorate K v.

Definition grouped (calls : list (Kind * string)) : string :=
  String.concat ""
    (map (fun K => String.concat "" (map (piece K) (fragments K calls))) all_kinds).

(** The [settings] a call sequence leaves when every call is let through. *)
Definition stores (calls : list (Kind * string)) (d : Settings.t) : Settings.t :=
  fold_left (fun d c => store (fst c) (snd c) d) calls d.

(** Build a selector with the given calls, then render it. *)
Definition build_and_stringify (calls : list (Kind * string)) : M heap string :=
  this ← build calls; stringify (Single this).

(** The value a singleton kind currently has in [settings]. *)
Definition singleton_value (K : Kind) (d : Settings.t) : option string :=
  match K with
  | KElement => Settings.element d
  | KId => Settings.id d
  | KPseudoElement => Settings.pseudoElement d
  | _ => None
  end.

(** The double-quote character, for fragments that contain one. *)
Definition dquote : string := String "034"%char "".

(** [s.stringify()] called [n] times in a row. *)
Fixpoint stringify_times (n : nat) (s : selector) (h : heap)
    : list (outcome string) * heap :=
  match n with
  | O => ([], h)
  | S n' =>
      let (r, h') := stringify s h in
      let (rs, h'') := stringify_times n' s h' in
      (r :: rs, h'')
  end.

(** Every reference in [s] names an instance of the store. *)
Fixpoint allocated (h : heap) (s : selector) : Prop :=
  match s with
  | Single this => is_Some (h !! this)
  | Combinator s1 _ s2 => allocated h s1 /\ allocated h s2
  end.

(** ** [Rectangle] *)

Module Rectangle.

(** The object [r]: its two data properties.  JavaScript numbers are IEEE 754
    doubles, that is, primitive floats. *)
Record t : Type := mk {
  width : float;
  height : float
}.

(** The method [getArea() { return this.width * this.height; }]. *)
Definition getArea (this : t) : float := (width this * height this)%float.

Definition Rectangle (width height : float) : t := mk width height.

End Rectangle.

(** [module.exports] *)
Definition module_exports : list string :=
  ["Rectangle"; "getJSON"; "fromJSON"; "cssSelectorBuilder"].

(** ** The JSON bridge: [getJSON] and [fromJSON] *)

#[local] Set Warnings "-register-all".

(** JSON data.  Numbers are kept to the integers; the fields of an object are
    listed in enumeration order. *)
Inductive json : Type :=
| JNull
| JBool (b : bool)
| JNumber (n : Z)
| JString (s : string)
| JArray (items : list json)
| JObject (fields : list (string * json)).

(** Whether a value is an object in the sense of the language (an array is
    one, [null] and the primitives are not). *)
Definition is_Object (x : json) : bool :=
  match x with JArray _ | JObject _ => true | _ => false end.

(** A value together with its [[Prototype]] slot: [None] stands for the
    prototype the engine gave it, [Some p] for one set by a program. *)
Record jsvalue (P : Type) : Type := mk_jsvalue {
  own : json;
  prototype : option P
}.
Arguments mk_jsvalue {P} own prototype.
Arguments own {P} j.
Arguments prototype {P} j.

#[export] Instance outcome_ret : MRet outcome := @Return.
#[export] Instance outcome_bind : MBind outcome :=
  fun A B k m => match m with Return a => k a | Throw e => Throw e end.

(** [Object.setPrototypeOf(O, proto)] for a [proto] that is an object: a
    [TypeError] on [null], no effect on a primitive, and otherwise the
    prototype slot of [O] is set and [O] is returned. *)
Definition Object_setPrototypeOf {P : Type} (O : jsvalue P) (proto : P)
    : outcome (jsvalue P) :=
  match own O with
  | JNull => Throw (TypeError "Object.setPrototypeOf called on null or undefined")
  | JBool _ | JNumber _ | JString _ => Return O
  | JArray _ | JObject _ => Return (mk_jsvalue (own O) (Some proto))
  end.

Section Bridge.

(** The two functions of the platform's [JSON] object, and the type of the
    objects used as prototypes. *)
Variable JSON_stringify : json -> string.
Variable JSON_parse : string -> outcome json.
Variable P : Type.

Definition getJSON (obj : json) : string := JSON_stringify obj.

(** [obj] is updated in place by [Object.setPrototypeOf] and then returned. *)
Definition fromJSON (proto : P) (json : string) : outcome (jsvalue P) :=
  obj ← JSON_parse json;
  obj ← Object_setPrototypeOf (mk_jsvalue obj None) proto;
  mret obj.

End Bridge.

(** The [JSON] object of the platform, as far as this data model reaches,
    after the JSON grammar and the definitions of [JSON.stringify] and
    [JSON.parse] in the language standard.  [JSON.write] is [JSON.stringify]
    and [JSON.read] is [JSON.parse]; a string is read as its characters
    below U+0100.  Where the value at hand lies outside the data model (a
    number that is not an integer of magnitude below 2^53, a character from
    U+0100 on) the two functions make no statement: [write] gives [None]
    and [read] gives [Unmodelled]. *)
Module JSON.

Definition quote : ascii := "034"%char.
Definition backslash : ascii := "092"%char.

Definition hex_digit (n : nat) : ascii :=
  nth n (list_ascii_of_string "0123456789abcdef") "0"%char.

Definition hex_value (c : ascii) : option nat :=
  let n := nat_of_ascii c in
  if (48 <=? n) && (n <=? 57) then Some (n - 48)
  else if (97 <=? n) && (n <=? 102) then Some (n - 87)
  else if (65 <=? n) && (n <=? 70) then Some (n - 55)
  else None.

(** How a character is written inside a string literal. *)
Definition escape (c : ascii) : string :=
  if Ascii.eqb c quote then String backslash (String quote "")
  else if Ascii.eqb c backslash then String backslash (String backslash "")
  else if Ascii.eqb c "008" then String backslash "b"
  else if Ascii.eqb c "012" then String backslash "f"
  else if Ascii.eqb c "010" then String backslash "n"
  else if Ascii.eqb c "013" then String backslash "r"
  else if Ascii.eqb c "009" then String backslash "t"
  else if nat_of_ascii c <? 32
       then String backslash
              ("u00" +:+ String (hex_digit (nat_of_ascii c / 16))
                           (String (hex_digit (nat_of_ascii c mod 16)) ""))
       else String c "".

Fixpoint escape_all (s : string) : string :=
  match s with
  | EmptyString => ""
  | String c rest => escape c +:+ escape_all rest
  end.

Definition quoted (s : string) : string :=
  String quote (escape_all s +:+ String quote "").

(** The integers a double holds exactly and writes with all their digits. *)
Definition safe (n : Z) : bool := (Z.abs n <? 2 ^ 53)%Z.

Definition decimal (n : Z) : string :=
  DecimalString.NilZero.string_of_int (Z.to_int n).

Fixpoint write (x : json) : option string :=
  match x with
  | JNull => Some "null"
  | JBool true => Some "true"
  | JBool false => Some "false"
  | JNumber n => if safe n then Some (decimal n) else None
  | JString s => Some (quoted s)
  | JArray items =>
      texts ← mapM write items;
      Some ("[" +:+ String.concat "," texts +:+ "]")
  | JObject fields =>
      texts ← mapM (fun kv => t ← write (snd kv);
                              Some (quoted (fst kv) +:+ ":" +:+ t)) fields;
      Some ("{" +:+ String.concat "," texts +:+ "}")
  end.

(** The result of reading a value at the start of a text: the value and the
    text after it; or the text is not JSON (the platform throws a
    [SyntaxError]); or its value lies outside the data model. *)
Inductive reading (A : Type) : Type :=
| Read (a : A) (rest : string)
| Malformed
| Unmodelled.
Arguments Read {A} a rest.
Arguments Malformed {A}.
Arguments Unmodelled {A}.

Definition and_then {A B : Type} (r : reading A) (k : A -> string -> reading B)
    : reading B :=
  match r with
  | Read a rest => k a rest
  | Malformed => Malformed
  | Unmodelled => Unmodelled
  end.

Definition is_space (c : ascii) : bool :=
  Ascii.eqb c " " || Ascii.eqb c "009" || Ascii.eqb c "010" || Ascii.eqb c "013".

Fixpoint skip_space (s : string) : string :=
  match s with
  | String c rest => if is_space c then skip_space rest else s
  | EmptyString => ""
  end.

(** [expect lit s]: what follows [lit] at the start of [s]. *)
Fixpoint expect (lit s : string) : option string :=
  match lit, s with
  | EmptyString, _ => Some s
  | String c lit', String d s' => if Ascii.eqb c d then expect lit' s' else None
  | String _ _, EmptyString => None
  end.

Definition literal (lit : string) (x : json) (s : string) : reading json :=
  match expect lit s with
  | Some rest => Read x rest
  | None => Malformed
  end.

Definition is_digit (c : ascii) : bool :=
  (48 <=? nat_of_ascii c) && (nat_of_ascii c <=? 57).

Fixpoint digits (s : string) : string * string :=
  match s with
  | String c rest =>
      if is_digit c then let (ds, r) := digits rest in (String c ds, r)
      else ("", s)
  | EmptyString => ("", "")
  end.

(** The value of a number literal whose integer part is [ds], followed by
    [rest]: a fraction or an exponent, minus zero, and an integer that a
    double does not hold exactly are outside the data model. *)
Definition number_value (negative : bool) (ds rest : string) : reading json :=
  match ds with
  | EmptyString => Malformed
  | String "0" (String _ _) => Malformed
  | _ =>
      match rest with
      | String "." _ | String "e" _ | String "E" _ => Unmodelled
      | _ =>
          match DecimalString.NilEmpty.uint_of_string ds with
          | None => Malformed
          | Some u =>
              let n := Z.of_uint u in
              if negative && (n =? 0)%Z then Unmodelled
              else if safe n then Read (JNumber (if negative then - n else n)%Z) rest
              else Unmodelled
          end
      end
  end.

Definition read_number (s : string) : reading json :=
  match s with
  | String "-" body => let (ds, rest) := digits body in number_value true ds rest
  | _ => let (ds, rest) := digits s in number_value false ds rest
  end.

(** The character an escape letter stands for. *)
Definition unescape (e : ascii) : option ascii :=
  if Ascii.eqb e quote then Some quote
  else if Ascii.eqb e backslash then Some backslash
  else if Ascii.eqb e "/" then Some "/"%char
  else if Ascii.eqb e "b" then Some "008"%char
  else if Ascii.eqb e "f" then Some "012"%char
  else if Ascii.eqb e "n" then Some "010"%char
  else if Ascii.eqb e "r" then Some "013"%char
  else if Ascii.eqb e "t" then Some "009"%char
  else None.

(** The code unit that four hexadecimal digits write. *)
Definition code_unit (a b c d : ascii) : option nat :=
  a' ← hex_value a; b' ← hex_value b; c' ← hex_value c; d' ← hex_value d;
  Some (4096 * a' + 256 * b' + 16 * c' + d').

(** The characters of a string literal after its opening quote, up to the
    closing one. *)
Fixpoint read_chars (s : string) : reading string :=
  match s with
  | EmptyString => Malformed
  | String c rest =>
      if Ascii.eqb c quote then Read "" rest
      else if Ascii.eqb c backslash then
        match rest with
        | String "u" (String a (String b (String c1 (String c0 rest')))) =>
            match code_unit a b c1 c0 with
            | None => Malformed
            | Some n =>
                if n <? 256
                then and_then (read_chars rest')
                       (fun str r => Read (String (ascii_of_nat n) str) r)
                else Unmodelled
            end
        | String "u" _ => Malformed
        | String e rest' =>
            match unescape e with
            | Some d => and_then (read_chars rest') (fun str r => Read (String d str) r)
            | None => Malformed
            end
        | EmptyString => Malformed
        end
      else if nat_of_ascii c <? 32 then Malformed
      else and_then (read_chars rest) (fun str r => Read (String c str) r)
  end.

(** The array index a property key is, if it is one: the canonical decimal
    of an integer below 2^32 - 1. *)
Definition array_index (key : string) : option N :=
  match key with
  | EmptyString => None
  | String "0" (String _ _) => None
  | _ =>
      u ← DecimalString.NilEmpty.uint_of_string key;
      if (N.of_uint u <? 4294967295)%N then Some (N.of_uint u) else None
  end.

(** Whether a new key [key] is listed before the existing key [k]: array
    indices come first, in ascending order, then the other keys in the order
    of their creation. *)
Definition listed_before (key k : string) : bool :=
  match array_index key, array_index k with
  | Some i, Some j => (i <? j)%N
  | Some _, None => true
  | None, _ => false
  end.

(** [obj[key] = x] while an object is read: a key that is there keeps its
    place and takes the new value, a new key takes its place in the order of
    the own properties. *)
Fixpoint set_field (key : string) (x : json) (fields : list (string * json))
    : list (string * json) :=
  match fields with
  | [] => [(key, x)]
  | (k, y) :: rest =>
      if String.eqb k key then (k, x) :: rest
      else if listed_before key k then (key, x) :: (k, y) :: rest
      else (k, y) :: set_field key x rest
  end.

(** The fields in the order the engine lists them after creating them one
    by one. *)
Definition own_order (fields : list (string * json)) : list (string * json) :=
  fold_left (fun seen kv => set_field (fst kv) (snd kv) seen) fields [].

(** Reading a value, the items of an array after its bracket, and the
    members of an object after its brace.  [fuel] bounds the nesting of the
    calls; a text that exhausts it is left unmodelled. *)
Fixpoint read_value (fuel : nat) (s : string) {struct fuel} : reading json :=
  match fuel with
  | O => Unmodelled
  | S fuel =>
      match skip_space s with
      | EmptyString => Malformed
      | String c rest =>
          if Ascii.eqb c "n" then literal "ull" JNull rest
          else if Ascii.eqb c "t" then literal "rue" (JBool true) rest
          else if Ascii.eqb c "f" then literal "alse" (JBool false) rest
          else if Ascii.eqb c quote then
            and_then (read_chars rest) (fun str r => Read (JString str) r)
          else if Ascii.eqb c "[" then
            match skip_space rest with
            | String "]" r => Read (JArray []) r
            | _ => and_then (read_items fuel rest) (fun items r => Read (JArray items) r)
            end
          else if Ascii.eqb c "{" then
            match skip_space rest with
            | String "}" r => Read (JObject []) r
            | _ => and_then (read_members fuel [] rest)
                     (fun fields r => Read (JObject fields) r)
            end
          else if Ascii.eqb c "-" || is_digit c then read_number (String c rest)
          else Malformed
      end
  end
with read_items (fuel : nat) (s : string) {struct fuel} : reading (list json) :=
  match fuel with
  | O => Unmodelled
  | S fuel =>
      and_then (read_value fuel s) (fun x r =>
        match skip_space r with
        | String "," r' => and_then (read_items fuel r') (fun xs r'' => Read (x :: xs) r'')
        | String "]" r' => Read [x] r'
        | _ => Malformed
        end)
  end
with read_members (fuel : nat) (seen : list (string * json)) (s : string)
    {struct fuel} : reading (list (string * json)) :=
  match fuel with
  | O => Unmodelled
  | S fuel =>
      match skip_space s with
      | String c rest =>
          if Ascii.eqb c quote then
            and_then (read_chars rest) (fun key r =>
              match skip_space r with
              | String ":" r' =>
                  and_then (read_value fuel r') (fun x r'' =>
                    match skip_space r'' with
                    | String "," r3 => read_members fuel (set_field key x seen) r3
                    | String "}" r3 => Read (set_field key x seen) r3
                    | _ => Malformed
                    end)
              | _ => Malformed
              end)
          else Malformed
      | EmptyString => Malformed
      end
  end.

(** [JSON.parse(text)]: one value, then only white space. *)
Definition read (text : string) : reading json :=
  and_then (read_value (S (String.length text)) text) (fun x rest =>
    match skip_space rest with
    | EmptyString => Read x ""
    | String _ _ => Malformed
    end).

End JSON.

(** Every object lists its fields in the order of its own properties,
    without a repeated key: the values a program can hold. *)
Fixpoint in_order (x : json) : Prop :=
  match x with
  | JArray items => fold_right (fun y rest => in_order y /\ rest) True items
  | JObject fields =>
      JSON.own_order fields = fields
      /\ fold_right (fun kv rest => in_order (snd kv) /\ rest) True fields
  | _ => True
  end.

(** The data the model covers: [JSON.write] has a text for it, so every
    number in it is an integer that a double holds exactly. *)
Definition representable (x : json) : Prop :=
  in_order x /\ is_Some (JSON.write x).

(** A platform agrees with the model: on the data the model covers its
    [JSON.stringify] writes what [JSON.write] writes, and its [JSON.parse]
    returns what [JSON.read] reads and throws a [SyntaxError] on what
    [JSON.read] finds malformed.  Nothing is asked of it elsewhere. *)
Definition conforms (JSON_stringify : json -> string)
    (JSON_parse : string -> outcome json) : Prop :=
  (forall x t, in_order x -> JSON.write x = Some t -> JSON_stringify x = t)
  /\ (forall t x rest, JSON.read t = JSON.Read x rest -> JSON_parse t = Return x)
  /\ (forall t, JSON.read t = JSON.Malformed ->
                exists m, JSON_parse t = Throw (SyntaxError m)).

(** One platform that agrees with the model.  Where the model makes no
    statement its answers are placeholders ([null] as text, a refusal to
    read), and nothing is proved of them. *)
Module Conforming.

Definition JSON_stringify (x : json) : string := default "null" (JSON.write x).

Definition JSON_parse (text : string) : outcome json :=
  match JSON.read text with
  | JSON.Read x _ => Return x
  | JSON.Malformed => Throw (SyntaxError "Unexpected token in JSON")
  | JSON.Unmodelled => Throw (SyntaxError "Value outside the data model")
  end.

End Conforming.

(** *** Vocabulary of the round trip *)

(** What may follow a value in the text [write] gives: nothing, or a
    character that does not continue a number. *)
Definition delimited (rest : string) : Prop :=
  match rest with
  | EmptyString => True
  | String c _ =>
      JSON.is_digit c = false /\ c <> "."%char /\ c <> "e"%char /\ c <> "E"%char
  end.

(** The characters a written value can start with. *)
Definition value_start (c : ascii) : bool :=
  Ascii.eqb c "n" || Ascii.eqb c "t" || Ascii.eqb c "f" || Ascii.eqb c JSON.quote
  || Ascii.eqb c "[" || Ascii.eqb c "{" || Ascii.eqb c "-" || JSON.is_digit c.

(** The fuel a list of texts separated by commas takes. *)
Definition weight (texts : list string) : nat :=
  fold_right (fun t n => String.length t + 1 + n) 0 texts.

(** What the round trip says of one value and its text. *)
Definition reads_back (x : json) (t : string) : Prop :=
  forall fuel rest,
    String.length t <= fuel -> delimited rest ->
    JSON.read_value fuel (t +:+ rest) = JSON.Read x rest.

(** One member of an object and its text. *)
Definition member_reads_back (kv : string * json) (text : string) : Prop :=
  exists t, text = JSON.quoted (fst kv) +:+ ":" +:+ t /\ reads_back (snd kv) t.

(** ** Further vocabulary: what a selector refers to and holds *)

(** The references a selector holds, left to right. *)
Fixpoint refs (s : selector) : list ref :=
  match s with
  | Single this => [this]
  | Combinator s1 _ s2 => refs s1 ++ refs s2
  end.

(** The fragments [settings] holds for kind [K], in order. *)
Definition category (K : Kind) (d : Settings.t) : list string :=
  match K with
  | KElement => option_list (Settings.element d)
  | KId => option_list (Settings.id d)
  | KClass => Settings.class d
  | KAttr => Settings.attr d
  | KPseudoClass => Settings.pseudoClass d
  | KPseudoElement => option_list (Settings.pseudoElement d)
  end.

Definition is_nil {A : Type} (l : list A) : bool :=
  match l with [] => true | _ :: _ => false end.

(** No category ranked above the last added kind holds a fragment. *)
Definition ordered (o : CreateSelector.t) : bool :=
  forallb (fun K => (rank K <=? rank_last o)%Z
                    || is_nil (category K (CreateSelector.settings o)))
          all_kinds.

(** What the fragments of kind [K] contribute to the rendering. *)
Definition group (K : Kind) (d : Settings.t) : string :=
  String.concat "" (map (piece K) (category K d)).

(** The error of an abrupt completion. *)
Definition thrown {A : Type} (r : outcome A) : option Error :=
  match r with Throw e => Some e | Return _ => None end.

(** The pieces of a call sequence, in call order. *)
Definition pieces (calls : list (Kind * string)) : string :=
  String.concat "" (map (fun c => piece (fst c) (snd c)) calls).

(** Unfolding one bind of a store computation. *)
Ltac unfold_bind := unfold mbind, M_bind, bind.

(** * Properties *)

(** ** The ordering state machine *)

Lemma rank_values : map rank all_kinds = [0; 1; 2; 3; 4; 5]%Z.
Proof. reflexivity. Qed.

Lemma rank_range K : (0 <= rank K <= 5)%Z.
Proof. destruct K; vm_compute; split; discriminate. Qed.

Lemma rank_inj K K' : rank K = rank K' -> K = K'.
Proof. destruct K, K'; vm_compute; congruence. Qed.

Lemma position_run (h : heap) this o K :
  h !! this = Some o ->
  CreateSelector.position this (kind_name K) h =
    if (rank K <? rank_last o)%Z then (Throw OrderViolation, h)
    else if singleton K && (rank K =? rank_last o)%Z
         then (Throw DuplicateSingletonError, h)
         else (Return tt, <[this := CreateSelector.set_lastElement (kind_name K) o]> h).
Proof.
  intros Hl.
  unfold CreateSelector.position, mbind, M_bind, bind, CreateSelector.read.
  rewrite Hl. unfold rank_last, rank.
  destruct K; cbn [kind_name singleton];
    (destruct (_ <? _)%Z; [reflexivity |]);
    (destruct (_ =? _)%Z; reflexivity).
Qed.

Lemma read_after_write (h : heap) this o o' (f : CreateSelector.t -> CreateSelector.t) :
  h !! this = Some o ->
  (x ← CreateSelector.read this; CreateSelector.write this (f x);; mret this)
    (<[this := o']> h)
  = (Return this, <[this := f o']> h).
Proof.
  intros Hl. apply lookup_lt_Some in Hl.
  unfold mbind, M_bind, bind, CreateSelector.read, CreateSelector.write, mret, M_ret, ret.
  rewrite list_lookup_insert_eq by exact Hl.
  rewrite list_insert_insert_eq. reflexivity.
Qed.

Lemma call_run (h : heap) this o K v :
  h !! this = Some o ->
  call K this v h =
    match refusal K o with
    | Some e => (Throw e, h)
    | None => (Return this, <[this := added K v o]> h)
    end.
Proof.
  intros Hl.
  assert (Hshape : forall f,
    (CreateSelector.position this (kind_name K);;
     x ← CreateSelector.read this;
     CreateSelector.write this (CreateSelector.set_settings (f (CreateSelector.settings x)) x);;
     mret this) h
    = match refusal K o with
      | Some e => (Throw e, h)
      | None => (Return this, <[this := CreateSelector.mk (f (CreateSelector.settings o)) (kind_name K)]> h)
      end).
  { intros f. unfold mbind at 1. unfold M_bind, bind.
    rewrite (position_run h this o K Hl). unfold refusal.
    destruct (_ <? _)%Z; [reflexivity |].
    destruct (_ && _); [reflexivity |].
    exact (read_after_write h this o (CreateSelector.set_lastElement (kind_name K) o)
             (fun x => CreateSelector.set_settings (f (CreateSelector.settings x)) x) Hl). }
  destruct K; apply Hshape.
Qed.

Lemma refusal_fresh K : refusal K CreateSelector.fresh = None.
Proof. destruct K; reflexivity. Qed.

Lemma insert_last (h : heap) o o' : <[length h := o']> (h ++ [o]) = h ++ [o'].
Proof.
  rewrite <- (Nat.add_0_r (length h)) at 1. rewrite insert_app_r. reflexivity.
Qed.

Lemma lookup_last (h : heap) o : (h ++ [o]) !! length h = Some o.
Proof. apply list_lookup_middle. reflexivity. Qed.

Lemma chain_run (calls : list (Kind * string)) : forall (h : heap) this o,
  h !! this = Some o ->
  chain this calls h =
    match run calls o with
    | (None, o') => (Return this, <[this := o']> h)
    | (Some e, o') => (Throw e, <[this := o']> h)
    end.
Proof.
  induction calls as [| [K v] rest IH]; intros h this o Hl; cbn [chain run].
  - rewrite list_insert_id by exact Hl. reflexivity.
  - unfold_bind. rewrite (call_run h this o K v Hl).
    destruct (refusal K o) as [e |].
    + rewrite list_insert_id by exact Hl. reflexivity.
    + rewrite (IH (<[this := added K v o]> h) this (added K v o)).
      * destruct (run rest (added K v o)) as [[e |] o'];
          rewrite list_insert_insert_eq; reflexivity.
      * apply list_lookup_insert_eq. exact (lookup_lt_Some _ _ _ Hl).
Qed.

Lemma builder_run K v (h : heap) :
  builder K v h = (Return (length h), h ++ [added K v CreateSelector.fresh]).
Proof.
  assert (Hcall : (this ← CreateSelector.new; call K this v) h
                  = (Return (length h), h ++ [added K v CreateSelector.fresh])).
  { unfold mbind, M_bind, bind, CreateSelector.new.
    rewrite (call_run _ _ _ K v (lookup_last h CreateSelector.fresh)).
    rewrite refusal_fresh, insert_last. reflexivity. }
  destruct K; exact Hcall.
Qed.

Lemma build_run (calls : list (Kind * string)) (h : heap) :
  build calls h =
    match run calls CreateSelector.fresh with
    | (None, o') => (Return (length h), h ++ [o'])
    | (Some e, o') => (Throw e, h ++ [o'])
    end.
Proof.
  destruct calls as [| [K v] rest]; [reflexivity |].
  cbn [build run]. rewrite refusal_fresh.
  unfold_bind. rewrite builder_run.
  rewrite (chain_run rest _ _ _ (lookup_last h _)).
  destruct (run rest _) as [[e |] o']; rewrite insert_last; reflexivity.
Qed.

(** ** Rendering one selector *)

Lemma append_nil_l (s : string) : "" +:+ s = s.
Proof. reflexivity. Qed.

Lemma append_cons (c : ascii) (s t : string) : String c s +:+ t = String c (s +:+ t).
Proof. reflexivity. Qed.

Lemma append_nil_r (s : string) : s +:+ "" = s.
Proof.
  induction s as [| c s IH]; [reflexivity |]. rewrite append_cons. now f_equal.
Qed.

Lemma append_assoc (a b c : string) : (a +:+ b) +:+ c = a +:+ (b +:+ c).
Proof.
  induction a as [| x a IH]; [reflexivity |]. rewrite !append_cons. now f_equal.
Qed.

Lemma concat_cons (x : string) (l : list string) :
  String.concat "" (x :: l) = x +:+ String.concat "" l.
Proof. destruct l; cbn; [symmetry; apply append_nil_r | reflexivity]. Qed.

Lemma concat_app (l1 l2 : list string) :
  String.concat "" (l1 ++ l2) = String.concat "" l1 +:+ String.concat "" l2.
Proof.
  induction l1 as [| x l1 IH]; [reflexivity |].
  rewrite <- app_comm_cons, !concat_cons, IH, append_assoc. reflexivity.
Qed.

Lemma reduce_decorated (pre post : string) (l : list string) : forall acc,
  fold_left (fun prev current => ((prev +:+ pre) +:+ current) +:+ post) l acc
  = acc +:+ String.concat "" (map (fun c => pre +:+ c +:+ post) l).
Proof.
  induction l as [| x l IH]; intros acc; cbn [fold_left map].
  - cbn. now rewrite append_nil_r.
  - rewrite IH, concat_cons, !append_assoc. reflexivity.
Qed.

Lemma body_optional (d : Settings.t) i K (o : option string) str (h : heap) :
  Object_values d !! i = Some (of_option o) ->
  (forall v, CreateSelector.at_index CreateSelector.before i
               +:+ v +:+ CreateSelector.at_index CreateSelector.after i
             = decorate K v) ->
  CreateSelector.stringify_body d i str h
  = (Return (str +:+ spec_optional K (nonempty o)), h).
Proof.
  intros Hv Hdec. unfold CreateSelector.stringify_body. rewrite Hv.
  unfold js_or, mbind, M_bind, bind, CreateSelector.reduce, mret, M_ret, ret.
  destruct o as [v |]; simpl.
  - destruct (String.eqb v ""); simpl.
    + reflexivity.
    + rewrite append_nil_l, append_assoc, Hdec. reflexivity.
  - reflexivity.
Qed.

Lemma body_repeated (d : Settings.t) i K (l : list string) str (h : heap) :
  Object_values d !! i = Some (VArray l) ->
  (forall v, CreateSelector.at_index CreateSelector.before i
               +:+ v +:+ CreateSelector.at_index CreateSelector.after i
             = decorate K v) ->
  CreateSelector.stringify_body d i str h
  = (Return (str +:+ spec_repeated K l), h).
Proof.
  intros Hv Hdec. unfold CreateSelector.stringify_body. rewrite Hv.
  unfold js_or, mbind, M_bind, bind, CreateSelector.reduce, mret, M_ret, ret.
  simpl.
  rewrite reduce_decorated, append_nil_l. unfold spec_repeated.
  rewrite (map_ext _ (decorate K) Hdec). reflexivity.
Qed.

Lemma for_loop_stringify (d : Settings.t) (h : heap) :
  CreateSelector.for_loop (length CreateSelector.before) 0
    (CreateSelector.stringify_body d) "" h
  = (Return (spec_stringify (omit_empty d)), h).
Proof.
  cbn [length CreateSelector.before CreateSelector.for_loop].
  unfold_bind.
  rewrite (body_optional d 0 KElement (Settings.element d)); [| reflexivity | intros; cbn; apply append_nil_r ].
  rewrite (body_optional d 1 KId (Settings.id d)); [| reflexivity | intros; cbn; now rewrite append_nil_r ].
  rewrite (body_repeated d 2 KClass (Settings.class d)); [| reflexivity | intros; cbn; now rewrite append_nil_r ].
  rewrite (body_repeated d 3 KAttr (Settings.attr d)); [| reflexivity | reflexivity ].
  rewrite (body_repeated d 4 KPseudoClass (Settings.pseudoClass d)); [| reflexivity | intros; cbn; now rewrite append_nil_r ].
  rewrite (body_optional d 5 KPseudoElement (Settings.pseudoElement d)); [| reflexivity | intros; cbn; now rewrite append_nil_r ].
  unfold spec_stringify, omit_empty, mret, M_ret, ret. cbn [Settings.element Settings.id Settings.class Settings.attr Settings.pseudoClass Settings.pseudoElement append].
  rewrite !append_assoc. reflexivity.
Qed.

Lemma stringify_run (h : heap) this o :
  h !! this = Some o ->
  CreateSelector.stringify this h
  = (Return (spec_stringify (omit_empty (CreateSelector.settings o))), h).
Proof.
  intros Hl. unfold CreateSelector.stringify, mbind, M_bind, bind, CreateSelector.read.
  rewrite Hl. apply for_loop_stringify.
Qed.

(** ** The claims about the ordering state machine *)

(** C1: [rank K] is the index of [K] in the fixed order list and the initial
    [lastElement] ranks below every category.  A fragment-adding call of kind
    [K] on a selector whose last added kind has rank [rank_last o] throws
    OrderViolation when [rank K < rank_last o]; throws
    DuplicateSingletonError when [K] is element, id or pseudoElement and the
    two ranks are equal; and otherwise succeeds, stores the fragment, sets
    [lastElement] to [K] and returns the reference it was called on. *)
Theorem position_transition :
  (forall K,
     CreateSelector.positionsElements !! Z.to_nat (rank K) = Some (kind_name K)
     /\ (rank_last CreateSelector.fresh < rank K)%Z) /\
  (forall (h : heap) (this : ref) (o : CreateSelector.t) (K : Kind) (v : string),
     h !! this = Some o ->
     ((rank K < rank_last o)%Z ->
        call K this v h = (Throw OrderViolation, h)) /\
     (singleton K = true -> rank K = rank_last o ->
        call K this v h = (Throw DuplicateSingletonError, h)) /\
     (~ (rank K < rank_last o)%Z ->
      ~ (singleton K = true /\ rank K = rank_last o) ->
        call K this v h = (Return this, <[this := added K v o]> h)
        /\ (<[this := added K v o]> h) !! this = Some (added K v o)
        /\ CreateSelector.lastElement (added K v o) = kind_name K
        /\ CreateSelector.settings (added K v o) = store K v (CreateSelector.settings o))).
Proof.
  split.
  - intros K. destruct K; split; reflexivity.
  - intros h this o K v Hl. rewrite (call_run h this o K v Hl). unfold refusal.
    split; [| split].
    + intros Hlt. apply Z.ltb_lt in Hlt. now rewrite Hlt.
    + intros Hs Heq. rewrite Heq, Z.ltb_irrefl, Hs, Z.eqb_refl. reflexivity.
    + intros Hnlt Hndup.
      destruct (Z.ltb_spec (rank K) (rank_last o)) as [Hlt | _]; [contradiction |].
      assert (Hguard : singleton K && (rank K =? rank_last o)%Z = false).
      { destruct (singleton K); [| reflexivity].
        destruct (Z.eqb_spec (rank K) (rank_last o)) as [Heq | _]; [| reflexivity].
        exfalso. apply Hndup. now split. }
      rewrite Hguard. split; [reflexivity |]. split; [| split; reflexivity].
      apply list_lookup_insert_eq. exact (lookup_lt_Some _ _ _ Hl).
Qed.

Lemma position_transition_witness :
  call KElement 0 "b" [added KId "a" CreateSelector.fresh]
    = (Throw OrderViolation, [added KId "a" CreateSelector.fresh])
  /\ call KId 0 "b" [added KId "a" CreateSelector.fresh]
    = (Throw DuplicateSingletonError, [added KId "a" CreateSelector.fresh])
  /\ call KClass 0 "c" [added KId "a" CreateSelector.fresh]
    = (Return 0, [added KClass "c" (added KId "a" CreateSelector.fresh)]).
Proof.
  pose proof (proj2 position_transition [added KId "a" CreateSelector.fresh] 0
                (added KId "a" CreateSelector.fresh)) as T.
  split; [| split].
  - apply (proj1 (T KElement "b" eq_refl)). reflexivity.
  - apply (proj1 (proj2 (T KId "b" eq_refl))); reflexivity.
  - apply (proj2 (proj2 (T KClass "c" eq_refl))).
    + vm_compute. discriminate.
    + intros [Hs _]. discriminate Hs.
Defined.

(** C6: adding a fragment whose category ranks below the last added one
    throws OrderViolation at once: the store is left as it was, the rest of
    the chain is not run, and the message names the required order.
    [id('a').element('b')] throws OrderViolation. *)
Theorem order_violation :
  (forall (h : heap) (this : ref) (o : CreateSelector.t) (K : Kind) (v : string)
          (rest : list (Kind * string)),
     h !! this = Some o ->
     (rank K < rank_last o)%Z ->
     call K this v h = (Throw OrderViolation, h)
     /\ chain this ((K, v) :: rest) h = (Throw OrderViolation, h)) /\
  message OrderViolation
    = "Selector parts should be arranged in the following order: " +:+ order_list /\
  order_list = "element, id, class, attribute, pseudo-class, pseudo-element" /\
  (forall (h : heap) (rest : list (Kind * string)),
     build ((KId, "a") :: (KElement, "b") :: rest) h
     = (Throw OrderViolation, h ++ [added KId "a" CreateSelector.fresh])).
Proof.
  split; [| split; [reflexivity | split; [reflexivity |]]].
  - intros h this o K v rest Hl Hlt.
    assert (Hcall : call K this v h = (Throw OrderViolation, h)).
    { rewrite (call_run h this o K v Hl). unfold refusal.
      apply Z.ltb_lt in Hlt. now rewrite Hlt. }
    split; [exact Hcall |].
    cbn [chain]. unfold_bind. now rewrite Hcall.
  - intros h rest. rewrite build_run. reflexivity.
Qed.

Lemma order_violation_witness :
  call KElement 0 "b" [added KId "a" CreateSelector.fresh]
    = (Throw OrderViolation, [added KId "a" CreateSelector.fresh])
  /\ chain 0 [(KElement, "b"); (KClass, "c")] [added KId "a" CreateSelector.fresh]
    = (Throw OrderViolation, [added KId "a" CreateSelector.fresh]).
Proof.
  apply (proj1 order_violation [added KId "a" CreateSelector.fresh] 0
           (added KId "a" CreateSelector.fresh) KElement "b" [(KClass, "c")]).
  - reflexivity.
  - reflexivity.
Defined.

(** ** The claims about rendering *)

Lemma build_and_stringify_run (calls : list (Kind * string)) (h : heap) :
  build_and_stringify calls h =
    match run calls CreateSelector.fresh with
    | (None, o') =>
        (Return (spec_stringify (omit_empty (CreateSelector.settings o'))), h ++ [o'])
    | (Some e, o') => (Throw e, h ++ [o'])
    end.
Proof.
  unfold build_and_stringify, mbind, M_bind, bind. rewrite build_run.
  destruct (run calls CreateSelector.fresh) as [[e |] o']; [reflexivity |].
  apply stringify_run, lookup_last.
Qed.

(** C2, as the code has it: [stringify()] on a single selector returns, in
    the category order element, id, class, attr, pseudoClass, pseudoElement
    and with no separators, each fragment with the decoration of its
    category, repeated fragments in insertion order; a singleton that was set
    to the empty string counts as not set and contributes nothing.  The store
    is left as it was.  [element('a').attr('href$=".png"').pseudoClass('focus')]
    renders as [a[href$=".png"]:focus]. *)
Theorem stringify_renders_fragments :
  (forall (h : heap) (this : ref) (o : CreateSelector.t),
     h !! this = Some o ->
     stringify (Single this) h
     = (Return (spec_stringify (omit_empty (CreateSelector.settings o))), h)) /\
  (forall h : heap,
     fst (build_and_stringify
            [(KElement, "a"); (KAttr, "href$=" +:+ dquote +:+ ".png" +:+ dquote);
             (KPseudoClass, "focus")] h)
     = Return ("a[href$=" +:+ dquote +:+ ".png" +:+ dquote +:+ "]:focus")).
Proof.
  split.
  - intros h this o Hl. exact (stringify_run h this o Hl).
  - intros h. rewrite build_and_stringify_run. reflexivity.
Qed.

Lemma stringify_renders_fragments_witness :
  stringify (Single 0)
    [added KClass "editable" (added KClass "container" (added KId "main" CreateSelector.fresh))]
  = (Return "#main.container.editable",
     [added KClass "editable" (added KClass "container" (added KId "main" CreateSelector.fresh))]).
Proof.
  apply (proj1 stringify_renders_fragments
           [added KClass "editable" (added KClass "container" (added KId "main" CreateSelector.fresh))]
           0 _ eq_refl).
Defined.

(** C2 as stated fails on [id('')]: the id is set, so the claim asks for
    ["#"], and [stringify()] returns the empty string. *)
Lemma empty_id_not_decorated :
  build [(KId, "")] [] = (Return 0, [added KId "" CreateSelector.fresh])
  /\ Settings.id (CreateSelector.settings (added KId "" CreateSelector.fresh)) = Some ""
  /\ spec_stringify (CreateSelector.settings (added KId "" CreateSelector.fresh)) = "#"
  /\ stringify (Single 0) [added KId "" CreateSelector.fresh]
     = (Return "", [added KId "" CreateSelector.fresh])
  /\ ~ (forall (h : heap) (this : ref) (o : CreateSelector.t),
          h !! this = Some o ->
          fst (stringify (Single this) h)
          = Return (spec_stringify (CreateSelector.settings o))).
Proof.
  repeat split.
  intros Hclaim.
  specialize (Hclaim [added KId "" CreateSelector.fresh] 0 _ eq_refl).
  vm_compute in Hclaim. discriminate Hclaim.
Qed.

(** C9: a call that sets a singleton (element, id, pseudoElement) to the
    empty string leaves the rendering exactly as it was before the call,
    decoration included; a call that adds the empty string as a class, attr
    or pseudoClass inserts the bare decoration of that category.
    [class('')] renders as [.], [attr('')] as [[]], [pseudoClass('')] as [:],
    and [id('')], [pseudoElement('')] and [element('')] as the empty string. *)
Theorem empty_fragment_rendering :
  (forall (h : heap) (this : ref) (o : CreateSelector.t) (K : Kind),
     h !! this = Some o ->
     (singleton K = true ->
      singleton_value K (CreateSelector.settings o) = None ->
      fst (stringify (Single this) (<[this := added K "" o]> h))
      = fst (stringify (Single this) h)) /\
     (singleton K = false ->
      exists pre post,
        fst (stringify (Single this) h) = Return (pre +:+ post)
        /\ fst (stringify (Single this) (<[this := added K "" o]> h))
           = Return (pre +:+ decorate K "" +:+ post))) /\
  decorate KClass "" = "." /\ decorate KAttr "" = "[]" /\
  decorate KPseudoClass "" = ":" /\
  (forall h : heap,
     fst (build_and_stringify [(KClass, "")] h) = Return "."
     /\ fst (build_and_stringify [(KAttr, "")] h) = Return "[]"
     /\ fst (build_and_stringify [(KPseudoClass, "")] h) = Return ":"
     /\ fst (build_and_stringify [(KElement, "")] h) = Return ""
     /\ fst (build_and_stringify [(KId, "")] h) = Return ""
     /\ fst (build_and_stringify [(KPseudoElement, "")] h) = Return "").
Proof.
  split; [| split; [reflexivity | split; [reflexivity | split; [reflexivity |]]]].
  - intros h this o K Hl.
    assert (Hl' : (<[this := added K "" o]> h) !! this = Some (added K "" o)).
    { apply list_lookup_insert_eq. exact (lookup_lt_Some _ _ _ Hl). }
    cbn [stringify].
    rewrite (stringify_run _ _ _ Hl), (stringify_run _ _ _ Hl'). cbn [fst].
    destruct o as [d l]. destruct d as [e i c a p pe].
    unfold spec_stringify, omit_empty, added, store; cbn [CreateSelector.settings].
    split.
    + intros Hs Hnone. destruct K; try discriminate Hs;
        cbn in Hnone; subst; reflexivity.
    + intros Hs. destruct K; try discriminate Hs;
        cbn [Settings.push_class Settings.push_attr Settings.push_pseudoClass
             Settings.element Settings.id Settings.class Settings.attr
             Settings.pseudoClass Settings.pseudoElement];
        unfold spec_repeated; rewrite map_app, concat_app;
        cbn [map]; rewrite (concat_cons _ []).
      * exists (spec_optional KElement (nonempty e) +:+ spec_optional KId (nonempty i)
                +:+ String.concat "" (map (decorate KClass) c)).
        eexists. split; rewrite !append_assoc; reflexivity.
      * exists (spec_optional KElement (nonempty e) +:+ spec_optional KId (nonempty i)
                +:+ String.concat "" (map (decorate KClass) c)
                +:+ String.concat "" (map (decorate KAttr) a)).
        eexists. split; rewrite !append_assoc; reflexivity.
      * exists (spec_optional KElement (nonempty e) +:+ spec_optional KId (nonempty i)
                +:+ String.concat "" (map (decorate KClass) c)
                +:+ String.concat "" (map (decorate KAttr) a)
                +:+ String.concat "" (map (decorate KPseudoClass) p)).
        eexists. split; rewrite !append_assoc; reflexivity.
  - intros h. rewrite !build_and_stringify_run. repeat split.
Qed.

Lemma empty_fragment_rendering_witness :
  fst (stringify (Single 0) [added KId "" (added KElement "a" CreateSelector.fresh)])
  = fst (stringify (Single 0) [added KElement "a" CreateSelector.fresh])
  /\ exists pre post,
       fst (stringify (Single 0) [added KElement "a" CreateSelector.fresh])
       = Return (pre +:+ post)
       /\ fst (stringify (Single 0) [added KClass "" (added KElement "a" CreateSelector.fresh)])
          = Return (pre +:+ decorate KClass "" +:+ post).
Proof.
  pose proof (proj1 empty_fragment_rendering [added KElement "a" CreateSelector.fresh]
                0 (added KElement "a" CreateSelector.fresh)) as T.
  split.
  - apply (proj1 (T KId eq_refl)); reflexivity.
  - apply (proj2 (T KClass eq_refl)). reflexivity.
Defined.

(** ** Combined selectors, and rendering as a read *)

Lemma bind_return {A B : Type} (m : M heap A) (k : A -> M heap B) (h h' : heap) a :
  m h = (Return a, h') -> (m ≫= k) h = k a h'.
Proof. intros Hm. unfold_bind. now rewrite Hm. Qed.

Lemma stringify_pure (s : selector) (h : heap) : snd (stringify s h) = h.
Proof.
  induction s as [this | s1 IH1 comb s2 IH2]; cbn [stringify].
  - destruct (h !! this) as [o |] eqn:Hl.
    + now rewrite (stringify_run h this o Hl).
    + unfold CreateSelector.stringify, mbind, M_bind, bind, CreateSelector.read.
      now rewrite Hl.
  - unfold_bind.
    destruct (stringify s1 h) as [[a | e] h1]; cbn [snd] in IH1; subst h1; [| reflexivity].
    destruct (stringify s2 h) as [[b | e] h2]; cbn [snd] in IH2; subst h2; reflexivity.
Qed.

Lemma stringify_eta (s : selector) (h : heap) :
  stringify s h = (fst (stringify s h), h).
Proof. rewrite <- (stringify_pure s h) at 3. now destruct (stringify s h). Qed.

Lemma stringify_total (s : selector) (h : heap) :
  allocated h s -> exists str, stringify s h = (Return str, h).
Proof.
  induction s as [this | s1 IH1 comb s2 IH2]; cbn [stringify allocated].
  - intros [o Hl]. eexists. exact (stringify_run h this o Hl).
  - intros [H1 H2]. destruct (IH1 H1) as [a Ha]. destruct (IH2 H2) as [b Hb].
    unfold_bind. rewrite Ha, Hb. eexists. reflexivity.
Qed.

(** C3: [combine(l, t, r).stringify()] is [l.stringify()], a space, [t], a
    space, [r.stringify()], whatever [l] and [r] are (single selectors or
    combinators), so nested operands expand the same way, left to right;
    [combine(element('div').id('main'), '+', element('table').id('data'))]
    renders as [div#main + table#data]. *)
Theorem combine_stringify :
  (forall (h : heap) (l r : selector) (t a b : string),
     fst (stringify l h) = Return a ->
     fst (stringify r h) = Return b ->
     (c ← cssSelectorBuilder.combine l t r; stringify c) h
     = (Return (a +:+ " " +:+ t +:+ " " +:+ b), h)) /\
  (forall (h : heap) (s1 s2 s3 : selector) (t1 t2 a b c : string),
     fst (stringify s1 h) = Return a ->
     fst (stringify s2 h) = Return b ->
     fst (stringify s3 h) = Return c ->
     fst (stringify (Combinator s1 t1 (Combinator s2 t2 s3)) h)
     = Return (a +:+ " " +:+ t1 +:+ " " +:+ b +:+ " " +:+ t2 +:+ " " +:+ c)) /\
  (forall h : heap,
     fst ((l ← build [(KElement, "div"); (KId, "main")];
           r ← build [(KElement, "table"); (KId, "data")];
           c ← cssSelectorBuilder.combine (Single l) "+" (Single r);
           stringify c) h)
     = Return "div#main + table#data").
Proof.
  assert (Hone : forall (h : heap) l r t a b,
    fst (stringify l h) = Return a -> fst (stringify r h) = Return b ->
    stringify (Combinator l t r) h = (Return (a +:+ " " +:+ t +:+ " " +:+ b), h)).
  { intros h l r t a b Ha Hb. cbn [stringify]. unfold_bind.
    rewrite (stringify_eta l h), Ha, (stringify_eta r h), Hb. reflexivity. }
  split; [| split].
  - intros h l r t a b Ha Hb. exact (Hone h l r t a b Ha Hb).
  - intros h s1 s2 s3 t1 t2 a b c Ha Hb Hc.
    rewrite (Hone h s1 (Combinator s2 t2 s3) t1 a (b +:+ " " +:+ t2 +:+ " " +:+ c) Ha).
    + reflexivity.
    + now rewrite (Hone h s2 s3 t2 b c Hb Hc).
  - intros h.
    erewrite bind_return by (rewrite build_run; reflexivity).
    erewrite bind_return by (rewrite build_run; reflexivity).
    erewrite bind_return by reflexivity.
    rewrite (Hone _ (Single (length h)) (Single (length (h ++ [_]))) "+" "div#main" "table#data").
    + reflexivity.
    + cbn [stringify].
      erewrite stringify_run
        by (rewrite lookup_app_l by (rewrite length_app; cbn; lia); apply lookup_last).
      reflexivity.
    + cbn [stringify]. erewrite stringify_run by apply lookup_last. reflexivity.
Qed.

Lemma combine_stringify_witness :
  (c ← cssSelectorBuilder.combine (Single 0) "~" (Single 1); stringify c)
    [added KElement "tr" CreateSelector.fresh; added KElement "td" CreateSelector.fresh]
  = (Return "tr ~ td",
     [added KElement "tr" CreateSelector.fresh; added KElement "td" CreateSelector.fresh]).
Proof.
  apply (proj1 combine_stringify
           [added KElement "tr" CreateSelector.fresh; added KElement "td" CreateSelector.fresh]
           (Single 0) (Single 1) "~" "tr" "td"); reflexivity.
Defined.

(** The nested example of the documentation in the source. *)
Example documented_combination :
  fst ((a ← build [(KElement, "div"); (KId, "main"); (KClass, "container");
                   (KClass, "draggable")];
        b ← build [(KElement, "table"); (KId, "data")];
        c ← build [(KElement, "tr"); (KPseudoClass, "nth-of-type(even)")];
        d ← build [(KElement, "td"); (KPseudoClass, "nth-of-type(even)")];
        inner ← cssSelectorBuilder.combine (Single c) " " (Single d);
        middle ← cssSelectorBuilder.combine (Single b) "~" inner;
        outer ← cssSelectorBuilder.combine (Single a) "+" middle;
        stringify outer) [])
  = Return "div#main.container.draggable + table#data ~ tr:nth-of-type(even)   td:nth-of-type(even)".
Proof. reflexivity. Qed.

(** C7: calling [s.stringify()] any number of times on a selector or a
    combined selector gives the same result every time and leaves the store
    exactly as it was; on a constructed selector that result is a string. *)
Theorem stringify_idempotent :
  forall (s : selector) (h : heap) (n : nat),
    stringify_times n s h = (repeat (fst (stringify s h)) n, h)
    /\ snd (stringify s h) = h
    /\ (allocated h s -> exists str, fst (stringify s h) = Return str).
Proof.
  intros s h n. split; [| split].
  - induction n as [| n IH]; cbn [stringify_times repeat]; [reflexivity |].
    rewrite (stringify_eta s h), IH. reflexivity.
  - apply stringify_pure.
  - intros Hall. destruct (stringify_total s h Hall) as [str Hs].
    exists str. now rewrite Hs.
Qed.

Lemma stringify_idempotent_witness :
  exists str,
    fst (stringify (Combinator (Single 0) ">" (Single 0))
           [added KClass "x" CreateSelector.fresh]) = Return str.
Proof.
  apply (proj2 (proj2 (stringify_idempotent
                         (Combinator (Single 0) ">" (Single 0))
                         [added KClass "x" CreateSelector.fresh] 3))).
  split; eexists; reflexivity.
Defined.

(** ** Call sequences *)

Lemma rank_last_added K v o : rank_last (added K v o) = rank K.
Proof. reflexivity. Qed.

Lemma Kind_eqb_spec K K' : reflect (K = K') (Kind_eqb K K').
Proof. destruct K, K'; constructor; (reflexivity || discriminate). Qed.

Lemma fragments_cons K K0 v (calls : list (Kind * string)) :
  fragments K ((K0, v) :: calls)
  = if Kind_eqb K0 K then v :: fragments K calls else fragments K calls.
Proof.
  unfold fragments. rewrite filter_cons. cbn [fst].
  destruct (Kind_eqb K0 K); reflexivity.
Qed.

Lemma fragments_app K (a b : list (Kind * string)) :
  fragments K (a ++ b) = fragments K a ++ fragments K b.
Proof. unfold fragments. now rewrite filter_app, map_app. Qed.

Lemma fragments_absent K (calls : list (Kind * string)) :
  Forall (fun c => fst c <> K) calls -> fragments K calls = [].
Proof.
  induction 1 as [| [K0 v] rest Hne _ IH]; [reflexivity |].
  rewrite fragments_cons. cbn [fst] in Hne.
  destruct (Kind_eqb_spec K0 K); [contradiction | exact IH].
Qed.

Lemma singletons_once_spec (calls : list (Kind * string)) :
  singletons_once calls = true
  <-> (forall K, singleton K = true -> length (fragments K calls) <= 1).
Proof.
  unfold singletons_once, all_kinds. cbn [forallb singleton negb orb andb].
  rewrite !andb_true_iff, !Nat.leb_le. split.
  - intros (He & Hi & Hp & _) K HK. destruct K; try discriminate HK; assumption.
  - intros H. repeat split; apply H; reflexivity.
Qed.

Lemma run_app (a b : list (Kind * string)) : forall o,
  run (a ++ b) o
  = match run a o with
    | (None, o') => run b o'
    | (Some e, o') => (Some e, o')
    end.
Proof.
  induction a as [| [K v] a IH]; intros o; cbn [app run]; [reflexivity |].
  destruct (refusal K o); [reflexivity | apply IH].
Qed.

Lemma refusal_None K o :
  refusal K o = None
  <-> (rank_last o <= rank K)%Z /\ ~ (singleton K = true /\ rank K = rank_last o).
Proof.
  unfold refusal.
  destruct (Z.ltb_spec (rank K) (rank_last o)) as [Hlt | Hle].
  - split; [discriminate | intros [Hle _]; lia].
  - destruct (singleton K); cbn [andb].
    + destruct (Z.eqb_spec (rank K) (rank_last o)) as [Heq | Hne].
      * split; [discriminate | intros [_ Hn]; exfalso; apply Hn; now split].
      * split; [intros _; split; [exact Hle | now intros [_ Heq]] | reflexivity].
    + split; [intros _; split; [exact Hle | now intros [Hs _]] | reflexivity].
Qed.

Lemma refusal_cases K o :
  refusal K o = None \/ refusal K o = Some OrderViolation
  \/ refusal K o = Some DuplicateSingletonError.
Proof.
  unfold refusal. destruct (_ <? _)%Z; [now right; left |].
  destruct (_ && _); [now right; right | now left].
Qed.

Lemma run_error_cases (calls : list (Kind * string)) : forall o e,
  fst (run calls o) = Some e -> e = OrderViolation \/ e = DuplicateSingletonError.
Proof.
  induction calls as [| [K v] rest IH]; intros o e; cbn [run]; [discriminate |].
  destruct (refusal_cases K o) as [-> | [-> | ->]]; cbn [fst].
  - apply IH.
  - intros [= <-]. now left.
  - intros [= <-]. now right.
Qed.

(** A sequence that is let through has non-decreasing ranks from the last
    added kind on, and no singleton twice. *)
Lemma run_accepts (calls : list (Kind * string)) : forall o,
  fst (run calls o) = None ->
  Forall (fun c => (rank_last o <= rank (fst c))%Z) calls
  /\ (forall K, singleton K = true ->
        length (fragments K calls) <= 1
        /\ (rank K = rank_last o -> fragments K calls = [])).
Proof.
  induction calls as [| [K0 v] rest IH]; intros o; cbn [run].
  - intros _. split; [constructor |]. intros K _. split; [cbn; lia | reflexivity].
  - destruct (refusal K0 o) eqn:Href; [discriminate |].
    apply refusal_None in Href. destruct Href as [Hle Hnot].
    intros Hrun. destruct (IH _ Hrun) as [Hall Hone].
    rewrite rank_last_added in Hall, Hone.
    assert (Hall' : Forall (fun c => (rank_last o <= rank (fst c))%Z) rest).
    { eapply Forall_impl; [exact Hall |]. intros c Hc. cbn beta in Hc |- *. lia. }
    split; [constructor; [exact Hle | exact Hall'] |].
    intros K HK. destruct (Hone K HK) as [Hlen Hnil]. rewrite fragments_cons.
    destruct (Kind_eqb_spec K0 K) as [-> | Hne].
    + split.
      * rewrite Hnil by reflexivity. cbn. lia.
      * intros Heq. exfalso. apply Hnot. now split.
    + split; [exact Hlen |].
      intros Heq. apply fragments_absent.
      eapply Forall_impl; [exact Hall |]. intros c Hc Hc'. cbn beta in Hc.
      rewrite Hc' in Hc. apply Hne, rank_inj. lia.
Qed.

(** Conversely, non-decreasing ranks with no singleton twice are let
    through. *)
Lemma run_valid (calls : list (Kind * string)) : forall o,
  nondecreasing (rank_last o :: ranks calls) = true ->
  (forall K, singleton K = true -> rank K = rank_last o -> fragments K calls = []) ->
  (forall K, singleton K = true -> length (fragments K calls) <= 1) ->
  fst (run calls o) = None.
Proof.
  induction calls as [| [K0 v] rest IH]; intros o Hnd Hfirst Honce; [reflexivity |].
  cbn [run]. cbn [ranks map fst nondecreasing] in Hnd.
  apply andb_true_iff in Hnd. destruct Hnd as [Hle Hnd]. apply Z.leb_le in Hle.
  assert (Href : refusal K0 o = None).
  { apply refusal_None. split; [exact Hle |]. intros [Hs Heq].
    specialize (Hfirst K0 Hs Heq). rewrite fragments_cons in Hfirst.
    destruct (Kind_eqb_spec K0 K0); [discriminate | congruence]. }
  rewrite Href. apply IH.
  - rewrite rank_last_added. exact Hnd.
  - rewrite rank_last_added. intros K HK Heq. apply rank_inj in Heq. subst K0.
    specialize (Honce K HK). rewrite fragments_cons in Honce.
    destruct (Kind_eqb_spec K K); [| congruence].
    destruct (fragments K rest); [reflexivity | cbn in Honce; lia].
  - intros K HK. specialize (Honce K HK). rewrite fragments_cons in Honce.
    destruct (Kind_eqb K0 K); [cbn in Honce; lia | exact Honce].
Qed.

Lemma run_settings (calls : list (Kind * string)) : forall o,
  fst (run calls o) = None ->
  CreateSelector.settings (snd (run calls o)) = stores calls (CreateSelector.settings o).
Proof.
  induction calls as [| [K v] rest IH]; intros o; cbn [run]; [reflexivity |].
  destruct (refusal K o); [discriminate |]. intros Hrun.
  rewrite (IH _ Hrun). reflexivity.
Qed.

Lemma stores_snoc (calls : list (Kind * string)) K v d :
  stores (calls ++ [(K, v)]) d = store K v (stores calls d).
Proof. unfold stores. now rewrite fold_left_app. Qed.

Lemma stores_fields (calls : list (Kind * string)) :
  let d := stores calls (CreateSelector.settings CreateSelector.fresh) in
  Settings.element d = last (fragments KElement calls)
  /\ Settings.id d = last (fragments KId calls)
  /\ Settings.class d = fragments KClass calls
  /\ Settings.attr d = fragments KAttr calls
  /\ Settings.pseudoClass d = fragments KPseudoClass calls
  /\ Settings.pseudoElement d = last (fragments KPseudoElement calls).
Proof.
  induction calls as [| [K v] calls IH] using rev_ind; [repeat split |].
  cbn zeta in IH |- *. destruct IH as (He & Hi & Hc & Ha & Hp & Hpe).
  rewrite stores_snoc, !fragments_app.
  destruct K; cbn [store fragments filter map]; rewrite ?fragments_cons;
    cbn [Kind_eqb kind_name String.eqb Ascii.eqb Bool.eqb fragments filter list_filter map snd];
    rewrite ?app_nil_r, ?last_snoc;
    cbn [Settings.set_element Settings.set_id Settings.push_class Settings.push_attr
         Settings.push_pseudoClass Settings.set_pseudoElement
         Settings.element Settings.id Settings.class Settings.attr
         Settings.pseudoClass Settings.pseudoElement];
    rewrite ?Hc, ?Ha, ?Hp; repeat split; assumption.
Qed.

Lemma optional_piece K (l : list string) :
  singleton K = true -> length l <= 1 ->
  spec_optional K (nonempty (last l)) = String.concat "" (map (piece K) l).
Proof.
  intros HK Hlen. destruct l as [| v [| w l]]; [reflexivity | | cbn in Hlen; lia].
  cbn [last nonempty map String.concat]. unfold piece. rewrite HK. cbn [andb].
  destruct (String.eqb v ""); reflexivity.
Qed.

Lemma repeated_piece K (l : list string) :
  singleton K = false ->
  spec_repeated K l = String.concat "" (map (piece K) l).
Proof.
  intros HK. unfold spec_repeated. f_equal. apply map_ext.
  intros v. unfold piece. now rewrite HK.
Qed.

Lemma grouped_stores (calls : list (Kind * string)) :
  (forall K, singleton K = true -> length (fragments K calls) <= 1) ->
  spec_stringify (omit_empty (stores calls (CreateSelector.settings CreateSelector.fresh)))
  = grouped calls.
Proof.
  intros Honce. destruct (stores_fields calls) as (He & Hi & Hc & Ha & Hp & Hpe).
  unfold spec_stringify, omit_empty, grouped, all_kinds.
  cbn [Settings.element Settings.id Settings.class Settings.attr
       Settings.pseudoClass Settings.pseudoElement map].
  rewrite He, Hi, Hc, Ha, Hp, Hpe, !concat_cons.
  rewrite !optional_piece by (reflexivity || (apply Honce; reflexivity)).
  rewrite !repeated_piece by reflexivity.
  change (String.concat "" []) with "". now rewrite append_nil_r.
Qed.

Lemma nondecreasing_from_fresh (calls : list (Kind * string)) :
  nondecreasing (ranks calls) = true ->
  nondecreasing (rank_last CreateSelector.fresh :: ranks calls) = true.
Proof.
  destruct calls as [| [K v] rest]; [reflexivity |].
  intros Hnd. cbn [ranks map fst nondecreasing] in Hnd |- *.
  rewrite Hnd, andb_true_r. apply Z.leb_le.
  change (rank_last CreateSelector.fresh) with (-1)%Z.
  pose proof (rank_range K). lia.
Qed.

Lemma valid_run (calls : list (Kind * string)) :
  nondecreasing (ranks calls) = true ->
  singletons_once calls = true ->
  exists o,
    run calls CreateSelector.fresh = (None, o)
    /\ spec_stringify (omit_empty (CreateSelector.settings o)) = grouped calls.
Proof.
  intros Hnd Honce. rewrite singletons_once_spec in Honce.
  assert (Hrun : fst (run calls CreateSelector.fresh) = None).
  { apply run_valid; [now apply nondecreasing_from_fresh | | exact Honce].
    intros K _ Heq. pose proof (rank_range K).
    change (rank_last CreateSelector.fresh) with (-1)%Z in Heq. lia. }
  pose proof (run_settings calls _ Hrun) as Hset.
  destruct (run calls CreateSelector.fresh) as [res o]. cbn [fst snd] in Hrun, Hset.
  subst res. exists o. split; [reflexivity |].
  rewrite Hset. now apply grouped_stores.
Qed.

(** C4, as the code has it: a sequence of fragment-adding calls on one
    selector whose category ranks are non-decreasing and in which element, id
    and pseudoElement each occur at most once is built without error, and
    [stringify()] returns the fragments grouped in category order, each
    category in call order (an empty-string singleton contributing nothing);
    two such sequences with the same fragments per category render alike. *)
Theorem valid_sequence_builds :
  (forall (calls : list (Kind * string)) (h : heap),
     nondecreasing (ranks calls) = true ->
     singletons_once calls = true ->
     exists o,
       build calls h = (Return (length h), h ++ [o])
       /\ build_and_stringify calls h = (Return (grouped calls), h ++ [o])) /\
  (forall (calls calls' : list (Kind * string)) (h h' : heap),
     nondecreasing (ranks calls) = true -> singletons_once calls = true ->
     nondecreasing (ranks calls') = true -> singletons_once calls' = true ->
     (forall K, fragments K calls = fragments K calls') ->
     fst (build_and_stringify calls h) = fst (build_and_stringify calls' h')).
Proof.
  assert (Hone : forall (calls : list (Kind * string)) (h : heap),
    nondecreasing (ranks calls) = true -> singletons_once calls = true ->
    exists o, build calls h = (Return (length h), h ++ [o])
              /\ build_and_stringify calls h = (Return (grouped calls), h ++ [o])).
  { intros calls h Hnd Honce. destruct (valid_run calls Hnd Honce) as (o & Hrun & Hstr).
    exists o. rewrite build_run, build_and_stringify_run, Hrun, Hstr. now split. }
  split; [exact Hone |].
  intros calls calls' h h' Hnd Honce Hnd' Honce' Hsame.
  destruct (Hone calls h Hnd Honce) as (o & _ & ->).
  destruct (Hone calls' h' Hnd' Honce') as (o' & _ & ->).
  cbn [fst]. unfold grouped. f_equal. f_equal. apply map_ext.
  intros K. now rewrite Hsame.
Qed.

Lemma valid_sequence_builds_witness :
  exists o,
    build [(KElement, "div"); (KClass, "a"); (KClass, "b"); (KPseudoElement, "after")] []
    = (Return 0, [] ++ [o])
    /\ build_and_stringify
         [(KElement, "div"); (KClass, "a"); (KClass, "b"); (KPseudoElement, "after")] []
       = (Return (grouped [(KElement, "div"); (KClass, "a"); (KClass, "b");
                           (KPseudoElement, "after")]), [] ++ [o]).
Proof.
  apply (proj1 valid_sequence_builds
           [(KElement, "div"); (KClass, "a"); (KClass, "b"); (KPseudoElement, "after")] []);
    reflexivity.
Defined.

(** C4 as stated fails on [id('a').id('b')]: the ranks are non-decreasing
    and the second call throws. *)
Lemma nondecreasing_repeated_id_refused :
  nondecreasing (ranks [(KId, "a"); (KId, "b")]) = true
  /\ build [(KId, "a"); (KId, "b")] []
     = (Throw DuplicateSingletonError, [added KId "a" CreateSelector.fresh]).
Proof. split; reflexivity. Qed.

Lemma run_last_rank (calls : list (Kind * string)) K v o :
  fst (run (calls ++ [(K, v)]) o) = None ->
  rank_last (snd (run (calls ++ [(K, v)]) o)) = rank K.
Proof.
  rewrite run_app. destruct (run calls o) as [[e |] o']; [discriminate |].
  cbn [run]. destruct (refusal K o'); [discriminate |]. reflexivity.
Qed.

(** C5, as the code has it: every call sequence that adds element, id or
    pseudoElement a second time fails, with OrderViolation or with
    DuplicateSingletonError.  It is DuplicateSingletonError when the second
    addition directly follows the first, and OrderViolation when calls of
    other kinds were accepted in between.  [id('a').id('b')] fails with
    DuplicateSingletonError. *)
Theorem repeated_singleton_fails :
  (forall (calls : list (Kind * string)) (K : Kind) (h : heap),
     singleton K = true ->
     2 <= length (fragments K calls) ->
     exists e o,
       build calls h = (Throw e, h ++ [o])
       /\ (e = OrderViolation \/ e = DuplicateSingletonError)) /\
  (forall (pre rest : list (Kind * string)) (K : Kind) (v1 v2 : string)
          (h h1 : heap) (this : ref),
     singleton K = true ->
     build (pre ++ [(K, v1)]) h = (Return this, h1) ->
     build (pre ++ (K, v1) :: (K, v2) :: rest) h
     = (Throw DuplicateSingletonError, h1)) /\
  (forall (pre mid rest : list (Kind * string)) (K : Kind) (v1 v2 : string)
          (h h1 : heap) (this : ref),
     singleton K = true ->
     mid <> [] ->
     build (pre ++ (K, v1) :: mid) h = (Return this, h1) ->
     build (pre ++ (K, v1) :: mid ++ (K, v2) :: rest) h
     = (Throw OrderViolation, h1)) /\
  (forall h : heap,
     build [(KId, "a"); (KId, "b")] h
     = (Throw DuplicateSingletonError, h ++ [added KId "a" CreateSelector.fresh])).
Proof.
  split; [| split; [| split]].
  - intros calls K h HK Hlen. rewrite build_run.
    destruct (run calls CreateSelector.fresh) as [[e |] o] eqn:Hrun.
    + exists e, o. split; [reflexivity |].
      apply (run_error_cases calls CreateSelector.fresh). now rewrite Hrun.
    + exfalso. destruct (run_accepts calls CreateSelector.fresh) as [_ Hone];
        [now rewrite Hrun |].
      destruct (Hone K HK) as [Hle _]. lia.
  - intros pre rest K v1 v2 h h1 this HK. rewrite !build_run.
    change (pre ++ (K, v1) :: (K, v2) :: rest)
      with (pre ++ [(K, v1)] ++ (K, v2) :: rest).
    rewrite app_assoc, (run_app (pre ++ [(K, v1)])).
    pose proof (run_last_rank pre K v1 CreateSelector.fresh) as Hlast.
    destruct (run (pre ++ [(K, v1)]) CreateSelector.fresh) as [[e |] o1];
      [discriminate |].
    intros [= _ <-]. cbn [run]. specialize (Hlast eq_refl). cbn [snd] in Hlast.
    unfold refusal. rewrite Hlast, Z.ltb_irrefl, HK, Z.eqb_refl. reflexivity.
  - intros pre mid rest K v1 v2 h h1 this HK Hmid. rewrite !build_run.
    destruct (exists_last Hmid) as (mid' & [Kl vl] & ->).
    change (pre ++ (K, v1) :: (mid' ++ [(Kl, vl)]) ++ (K, v2) :: rest)
      with (pre ++ ((K, v1) :: mid' ++ [(Kl, vl)]) ++ (K, v2) :: rest).
    rewrite (app_assoc pre), (run_app (pre ++ _)).
    change (pre ++ (K, v1) :: mid' ++ [(Kl, vl)])
      with (pre ++ [(K, v1)] ++ mid' ++ [(Kl, vl)]).
    rewrite !app_assoc.
    pose proof (run_last_rank ((pre ++ [(K, v1)]) ++ mid') Kl vl CreateSelector.fresh) as Hlast.
    pose proof (run_app (pre ++ [(K, v1)]) (mid' ++ [(Kl, vl)]) CreateSelector.fresh) as Happ.
    rewrite app_assoc in Happ.
    pose proof (run_last_rank pre K v1 CreateSelector.fresh) as Hfirst.
    destruct (run (((pre ++ [(K, v1)]) ++ mid') ++ [(Kl, vl)]) CreateSelector.fresh)
      as [[e |] o2]; [discriminate |].
    intros [= _ <-]. specialize (Hlast eq_refl). cbn [snd] in Hlast.
    destruct (run (pre ++ [(K, v1)]) CreateSelector.fresh) as [[e |] o1];
      [discriminate |].
    specialize (Hfirst eq_refl). cbn [snd] in Hfirst.
    destruct (run_accepts (mid' ++ [(Kl, vl)]) o1) as [Hall Hone];
      [now rewrite <- Happ |].
    destruct (Hone K HK) as [_ Hnil]. specialize (Hnil (eq_sym Hfirst)).
    rewrite fragments_app, fragments_cons in Hnil.
    rewrite Forall_app, Forall_singleton in Hall. destruct Hall as [_ Hall].
    cbn beta iota delta [fst] in Hall.
    assert (Hne : Kl <> K).
    { intros ->. destruct (Kind_eqb_spec K K); [| congruence].
      now destruct (fragments K mid'). }
    assert (Hlt : (rank K < rank Kl)%Z).
    { assert (rank Kl <> rank K) by (intros E; now apply Hne, rank_inj). lia. }
    cbn [run]. unfold refusal. rewrite Hlast.
    apply Z.ltb_lt in Hlt. rewrite Hlt. reflexivity.
  - intros h. rewrite build_run. reflexivity.
Qed.

Lemma repeated_singleton_fails_witness :
  (exists e o,
     build [(KElement, "a"); (KId, "b"); (KElement, "c")] [] = (Throw e, [] ++ [o])
     /\ (e = OrderViolation \/ e = DuplicateSingletonError))
  /\ build ([(KElement, "div")] ++ (KId, "a") :: (KId, "b") :: [(KClass, "c")]) []
     = (Throw DuplicateSingletonError,
        [added KId "a" (added KElement "div" CreateSelector.fresh)])
  /\ build ([] ++ (KElement, "a") :: [(KId, "b")] ++ (KElement, "c") :: []) []
     = (Throw OrderViolation, [added KId "b" (added KElement "a" CreateSelector.fresh)]).
Proof.
  destruct repeated_singleton_fails as (Hany & Hadjacent & Hbetween & _).
  split; [| split].
  - apply (Hany [(KElement, "a"); (KId, "b"); (KElement, "c")] KElement []).
    + reflexivity.
    + vm_compute. lia.
  - apply (Hadjacent [(KElement, "div")] [(KClass, "c")] KId "a" "b" [] _ 0).
    + reflexivity.
    + reflexivity.
  - apply (Hbetween [] [(KId, "b")] [] KElement "a" "c" [] _ 0).
    + reflexivity.
    + discriminate.
    + reflexivity.
Defined.

(** C5 as stated fails on [element('a').id('b').element('c')]: the element
    is added a second time, and the error is OrderViolation. *)
Lemma second_element_after_id_wrong_error :
  length (fragments KElement [(KElement, "a"); (KId, "b"); (KElement, "c")]) = 2
  /\ build [(KElement, "a"); (KId, "b"); (KElement, "c")] []
     = (Throw OrderViolation, [added KId "b" (added KElement "a" CreateSelector.fresh)])
  /\ OrderViolation <> DuplicateSingletonError.
Proof. repeat split. discriminate. Qed.

(** ** The JSON bridge *)

(** *** The JSON model reads back what it writes *)

Lemma length_append (a b : string) :
  String.length (a +:+ b) = String.length a + String.length b.
Proof.
  induction a as [| c a IH]; [reflexivity |].
  rewrite append_cons. cbn [String.length]. now rewrite IH.
Qed.

(** Every character is read back from its escaped form. *)
Lemma read_chars_escape (c : ascii) (tail : string) :
  JSON.read_chars (JSON.escape c +:+ tail)
  = JSON.and_then (JSON.read_chars tail) (fun str r => JSON.Read (String c str) r).
Proof. destruct c as [[] [] [] [] [] [] [] []]; reflexivity. Qed.

(** A string literal is read back up to its closing quote. *)
Lemma read_chars_quoted (s rest : string) :
  JSON.read_chars (JSON.escape_all s +:+ String JSON.quote rest) = JSON.Read s rest.
Proof.
  induction s as [| c s IH]; [reflexivity |].
  cbn [JSON.escape_all]. rewrite append_assoc, read_chars_escape, IH. reflexivity.
Qed.

Lemma digits_uint (u : Decimal.uint) (rest : string) :
  delimited rest ->
  JSON.digits (DecimalString.NilEmpty.string_of_uint u +:+ rest)
  = (DecimalString.NilEmpty.string_of_uint u, rest).
Proof.
  intros Hrest.
  induction u as [| u IH | u IH | u IH | u IH | u IH | u IH | u IH | u IH | u IH | u IH];
    cbn [DecimalString.NilEmpty.string_of_uint];
    rewrite ?append_cons; cbn [JSON.digits]; rewrite ?IH; try reflexivity.
  rewrite append_nil_l. destruct rest as [| c r]; [reflexivity |].
  cbn [JSON.digits]. destruct Hrest as [-> _]. reflexivity.
Qed.

Lemma to_uint_head (p : positive) :
  Pos.to_uint p <> Decimal.Nil /\ forall u, Pos.to_uint p <> Decimal.D0 u.
Proof.
  split; [apply DecimalPos.Unsigned.to_uint_nonnil |].
  intros u Hu.
  pose proof (DecimalPos.Unsigned.to_of (Pos.to_uint p)) as Hnorm.
  rewrite DecimalPos.Unsigned.of_to in Hnorm. cbn [N.to_uint] in Hnorm.
  unfold Decimal.unorm in Hnorm.
  destruct (Decimal.nzhead (Pos.to_uint p)) eqn:Hhead.
  - exact (DecimalPos.Unsigned.to_uint_nonzero p Hnorm).
  - exact (DecimalFacts.nzhead_nonzero _ _ Hhead).
  - congruence.
  - congruence.
  - congruence.
  - congruence.
  - congruence.
  - congruence.
  - congruence.
  - congruence.
  - congruence.
Qed.

Lemma of_to_uint (p : positive) : Z.of_uint (Pos.to_uint p) = Z.pos p.
Proof.
  unfold Z.of_uint. now rewrite DecimalPos.Unsigned.of_to.
Qed.

Lemma number_value_pos (p : positive) (negative : bool) (rest : string) :
  delimited rest ->
  JSON.safe (Z.pos p) = true ->
  JSON.number_value negative
    (DecimalString.NilEmpty.string_of_uint (Pos.to_uint p)) rest
  = JSON.Read (JNumber (if negative then Z.neg p else Z.pos p)) rest.
Proof.
  intros Hrest Hsafe. destruct (to_uint_head p) as [Hnil Hzero].
  assert (Hvalue :
    match rest with
    | String "." _ | String "e" _ | String "E" _ => JSON.Unmodelled
    | _ =>
        match DecimalString.NilEmpty.uint_of_string
                (DecimalString.NilEmpty.string_of_uint (Pos.to_uint p)) with
        | None => JSON.Malformed
        | Some u =>
            let n := Z.of_uint u in
            if negative && (n =? 0)%Z then JSON.Unmodelled
            else if JSON.safe n
                 then JSON.Read (JNumber (if negative then - n else n)%Z) rest
                 else JSON.Unmodelled
        end
    end = JSON.Read (JNumber (if negative then Z.neg p else Z.pos p)) rest).
  { rewrite DecimalString.NilEmpty.usu. cbn zeta. rewrite of_to_uint, Hsafe.
    replace (negative && (Z.pos p =? 0)%Z) with false by now destruct negative.
    destruct rest as [| c r]; [now destruct negative |].
    destruct Hrest as (_ & Hdot & He & HE).
    destruct c as [[] [] [] [] [] [] [] []]; try congruence; now destruct negative. }
  unfold JSON.number_value.
  destruct (Pos.to_uint p) as [| u | u | u | u | u | u | u | u | u | u];
    try congruence; try exact Hvalue.
Qed.

Lemma digits_delimited (rest : string) :
  delimited rest -> JSON.digits rest = ("", rest).
Proof.
  destruct rest as [| c r]; [reflexivity |]. intros [Hc _].
  cbn [JSON.digits]. now rewrite Hc.
Qed.

Lemma uint_string_head (u : Decimal.uint) :
  u <> Decimal.Nil ->
  exists c s, DecimalString.NilEmpty.string_of_uint u = String c s
              /\ JSON.is_digit c = true.
Proof.
  intros Hnil. destruct u; try congruence; eexists; eexists; split; reflexivity.
Qed.

Lemma read_number_digit (c : ascii) (t : string) :
  JSON.is_digit c = true ->
  JSON.read_number (String c t)
  = (let (ds, rest) := JSON.digits (String c t) in JSON.number_value false ds rest).
Proof.
  destruct c as [[] [] [] [] [] [] [] []]; intros Hc;
    try discriminate Hc; reflexivity.
Qed.

Lemma decimal_pos (p : positive) :
  JSON.decimal (Z.pos p) = DecimalString.NilEmpty.string_of_uint (Pos.to_uint p)
  /\ JSON.decimal (Z.neg p)
     = String "-" (DecimalString.NilEmpty.string_of_uint (Pos.to_uint p)).
Proof.
  destruct (to_uint_head p) as [Hnil _].
  unfold JSON.decimal. cbn [Z.to_int DecimalString.NilZero.string_of_int].
  unfold DecimalString.NilZero.string_of_uint.
  destruct (Pos.to_uint p); try congruence; split; reflexivity.
Qed.

(** The decimal digits of a safe integer are read back as that integer. *)
Lemma read_number_decimal (n : Z) (rest : string) :
  JSON.safe n = true ->
  delimited rest ->
  JSON.read_number (JSON.decimal n +:+ rest) = JSON.Read (JNumber n) rest.
Proof.
  intros Hsafe Hrest. destruct n as [| p | p].
  - change (JSON.decimal 0) with "0". rewrite append_cons, append_nil_l.
    unfold JSON.read_number. cbn [JSON.digits JSON.is_digit].
    change ((48 <=? nat_of_ascii "0") && (nat_of_ascii "0" <=? 57)) with true.
    cbn iota. rewrite (digits_delimited rest Hrest).
    destruct rest as [| c r]; [reflexivity |].
    destruct Hrest as (_ & Hdot & He & HE).
    destruct c as [[] [] [] [] [] [] [] []]; try congruence; reflexivity.
  - destruct (decimal_pos p) as [-> _].
    destruct (to_uint_head p) as [Hnil _].
    destruct (uint_string_head _ Hnil) as (c & s & Hs & Hc).
    pose proof (digits_uint (Pos.to_uint p) rest Hrest) as Hdigits.
    rewrite Hs in Hdigits |- *. rewrite append_cons in Hdigits |- *.
    rewrite (read_number_digit c _ Hc), Hdigits, <- Hs.
    exact (number_value_pos p false rest Hrest Hsafe).
  - destruct (decimal_pos p) as [_ ->]. rewrite append_cons.
    unfold JSON.read_number.
    rewrite (digits_uint (Pos.to_uint p) rest Hrest).
    exact (number_value_pos p true rest Hrest Hsafe).
Qed.

Lemma decimal_head (n : Z) :
  exists c s, JSON.decimal n = String c s
              /\ (Ascii.eqb c "-" || JSON.is_digit c = true).
Proof.
  destruct n as [| p | p].
  - exists "0"%char, "". split; reflexivity.
  - destruct (decimal_pos p) as [-> _]. destruct (to_uint_head p) as [Hnil _].
    destruct (uint_string_head _ Hnil) as (c & s & -> & Hc).
    exists c, s. split; [reflexivity |]. rewrite Hc. apply orb_true_r.
  - destruct (decimal_pos p) as [_ ->]. eexists; eexists. split; reflexivity.
Qed.

Lemma value_start_facts (c : ascii) :
  value_start c = true ->
  JSON.is_space c = false /\ c <> "]"%char /\ c <> "}"%char.
Proof.
  destruct c as [[] [] [] [] [] [] [] []]; intros Hc;
    try discriminate Hc; repeat split; discriminate.
Qed.

Lemma read_value_number (fuel : nat) (c : ascii) (t : string) :
  Ascii.eqb c "-" || JSON.is_digit c = true ->
  JSON.read_value (S fuel) (String c t) = JSON.read_number (String c t).
Proof.
  destruct c as [[] [] [] [] [] [] [] []]; intros Hc;
    try discriminate Hc; reflexivity.
Qed.

Lemma skip_space_start (c : ascii) (t : string) :
  value_start c = true -> JSON.skip_space (String c t) = String c t.
Proof.
  intros Hc. destruct (value_start_facts c Hc) as [Hspace _].
  cbn [JSON.skip_space]. now rewrite Hspace.
Qed.

(** Every written text starts with a character that starts a value. *)
Lemma write_start (x : json) (t : string) :
  JSON.write x = Some t ->
  exists c s, t = String c s /\ value_start c = true.
Proof.
  destruct x as [| [] | n | s | items | fields]; cbn [JSON.write].
  - intros [= <-]. now exists "n"%char, "ull".
  - intros [= <-]. now exists "t"%char, "rue".
  - intros [= <-]. now exists "f"%char, "alse".
  - destruct (JSON.safe n); [| discriminate]. intros [= <-].
    destruct (decimal_head n) as (c & s & Hd & Hc). exists c, s. split; [exact Hd |].
    unfold value_start. apply orb_true_iff in Hc. destruct Hc as [-> | ->];
      rewrite ?orb_true_r; reflexivity.
  - intros [= <-]. eexists; eexists. split; reflexivity.
  - destruct (mapM JSON.write items); [| discriminate]. intros [= <-].
    eexists; eexists. split; reflexivity.
  - destruct (mapM _ fields); [| discriminate]. intros [= <-].
    eexists; eexists. split; reflexivity.
Qed.

Lemma json_induction (Q : json -> Prop) :
  Q JNull ->
  (forall b, Q (JBool b)) ->
  (forall n, Q (JNumber n)) ->
  (forall s, Q (JString s)) ->
  (forall items, Forall Q items -> Q (JArray items)) ->
  (forall fields, Forall (fun kv => Q (snd kv)) fields -> Q (JObject fields)) ->
  forall x, Q x.
Proof.
  intros Hnull Hbool Hnum Hstr Harr Hobj.
  fix IH 1. intros [| b | n | s | items | fields].
  - exact Hnull.
  - apply Hbool.
  - apply Hnum.
  - apply Hstr.
  - apply Harr. induction items as [| y items IHitems]; constructor; [apply IH | exact IHitems].
  - apply Hobj. induction fields as [| [k y] fields IHfields]; constructor;
      [apply IH | exact IHfields].
Qed.

Lemma concat_comma_cons (t t' : string) (ts : list string) :
  String.concat "," (t :: t' :: ts) = t +:+ String "," (String.concat "," (t' :: ts)).
Proof. reflexivity. Qed.

Lemma length_concat_comma (texts : list string) :
  texts <> [] -> String.length (String.concat "," texts) + 1 = weight texts.
Proof.
  induction texts as [| t [| t' ts] IH]; intros Hne; [congruence | |].
  - cbn [String.concat weight fold_right]. lia.
  - rewrite concat_comma_cons, length_append. cbn [String.length].
    change (weight (t :: t' :: ts)) with (String.length t + 1 + weight (t' :: ts)).
    rewrite <- IH by discriminate. lia.
Qed.

Lemma read_value_quote (fuel : nat) (b : string) :
  JSON.read_value (S fuel) (String JSON.quote b)
  = JSON.and_then (JSON.read_chars b) (fun str r => JSON.Read (JString str) r).
Proof. reflexivity. Qed.

Lemma read_value_bracket (fuel : nat) (c : ascii) (b : string) :
  value_start c = true ->
  JSON.read_value (S fuel) (String "[" (String c b))
  = JSON.and_then (JSON.read_items fuel (String c b))
      (fun items r => JSON.Read (JArray items) r).
Proof.
  destruct c as [[] [] [] [] [] [] [] []]; intros Hc;
    try discriminate Hc; reflexivity.
Qed.

Lemma read_value_brace (fuel : nat) (b : string) :
  JSON.read_value (S fuel) (String "{" (String JSON.quote b))
  = JSON.and_then (JSON.read_members fuel [] (String JSON.quote b))
      (fun fields r => JSON.Read (JObject fields) r).
Proof. reflexivity. Qed.

Lemma read_items_step (fuel : nat) (s : string) :
  JSON.read_items (S fuel) s
  = JSON.and_then (JSON.read_value fuel s) (fun x r =>
      match JSON.skip_space r with
      | String "," r' =>
          JSON.and_then (JSON.read_items fuel r') (fun xs r'' => JSON.Read (x :: xs) r'')
      | String "]" r' => JSON.Read [x] r'
      | _ => JSON.Malformed
      end).
Proof. reflexivity. Qed.

Lemma read_members_step (fuel : nat) (seen : list (string * json)) (b : string) :
  JSON.read_members (S fuel) seen (String JSON.quote b)
  = JSON.and_then (JSON.read_chars b) (fun key r =>
      match JSON.skip_space r with
      | String ":" r' =>
          JSON.and_then (JSON.read_value fuel r') (fun x r'' =>
            match JSON.skip_space r'' with
            | String "," r3 => JSON.read_members fuel (JSON.set_field key x seen) r3
            | String "}" r3 => JSON.Read (JSON.set_field key x seen) r3
            | _ => JSON.Malformed
            end)
      | _ => JSON.Malformed
      end).
Proof. reflexivity. Qed.

Lemma delimited_comma (r : string) : delimited (String "," r).
Proof. repeat split; discriminate. Qed.

Lemma delimited_bracket (r : string) : delimited (String "]" r).
Proof. repeat split; discriminate. Qed.

Lemma delimited_brace (r : string) : delimited (String "}" r).
Proof. repeat split; discriminate. Qed.

(** The items of an array are read back from their texts, separated by
    commas and closed by the bracket. *)
Lemma read_items_texts (items : list json) (texts : list string) :
  Forall2 reads_back items texts ->
  items <> [] ->
  forall fuel rest,
    weight texts <= fuel ->
    JSON.read_items fuel (String.concat "," texts +:+ String "]" rest)
    = JSON.Read items rest.
Proof.
  induction 1 as [| x t items texts Hx Hrest IH]; intros Hne fuel rest Hfuel;
    [congruence |].
  change (weight (t :: texts)) with (String.length t + 1 + weight texts) in Hfuel.
  destruct fuel as [| fuel]; [lia |]. rewrite read_items_step.
  destruct Hrest as [| x' t' items' texts' Hx' Hrest'].
  - cbn [String.concat].
    rewrite (Hx fuel (String "]" rest)) by (lia || apply delimited_bracket).
    reflexivity.
  - rewrite concat_comma_cons, append_assoc, append_cons.
    rewrite (Hx fuel (String "," _)) by (lia || apply delimited_comma).
    cbn [JSON.and_then].
    change (JSON.skip_space (String "," ?r)) with (String "," r).
    cbn iota.
    rewrite (IH ltac:(discriminate) fuel rest) by lia.
    reflexivity.
Qed.

(** The members of an object are read back from their texts; each one is
    set on the fields read so far. *)
Lemma read_members_texts (fields : list (string * json)) (texts : list string) :
  Forall2 member_reads_back fields texts ->
  fields <> [] ->
  forall seen fuel rest,
    weight texts <= fuel ->
    JSON.read_members fuel seen (String.concat "," texts +:+ String "}" rest)
    = JSON.Read (fold_left (fun acc kv => JSON.set_field (fst kv) (snd kv) acc) fields seen)
        rest.
Proof.
  induction 1 as [| [k x] text fields texts (t & -> & Hx) Hrest IH];
    intros Hne seen fuel rest Hfuel; [congruence |].
  change (weight (?a :: texts)) with (String.length a + 1 + weight texts) in Hfuel.
  rewrite !length_append in Hfuel. cbn [fst snd] in *.
  destruct fuel as [| fuel]; [lia |].
  assert (Hmember : forall tail,
    JSON.read_members (S fuel) seen
      ((JSON.quoted k +:+ ":" +:+ t) +:+ tail)
    = JSON.and_then (JSON.read_value fuel (t +:+ tail)) (fun x r'' =>
        match JSON.skip_space r'' with
        | String "," r3 => JSON.read_members fuel (JSON.set_field k x seen) r3
        | String "}" r3 => JSON.Read (JSON.set_field k x seen) r3
        | _ => JSON.Malformed
        end)).
  { intros tail. unfold JSON.quoted. rewrite !append_cons, read_members_step.
    rewrite !append_assoc, !append_cons, append_nil_l, read_chars_quoted.
    reflexivity. }
  destruct Hrest as [| kv' text' fields' texts' Hkv' Hrest'].
  - cbn [String.concat fold_left fst snd]. rewrite Hmember.
    rewrite (Hx fuel (String "}" rest)) by (cbn [String.length] in Hfuel; lia || apply delimited_brace).
    reflexivity.
  - rewrite concat_comma_cons, (append_assoc (JSON.quoted k +:+ ":" +:+ t)), Hmember.
    rewrite append_cons.
    rewrite (Hx fuel (String "," _)) by (cbn [String.length] in Hfuel; lia || apply delimited_comma).
    cbn [JSON.and_then].
    change (JSON.skip_space (String "," ?r)) with (String "," r).
    cbn iota.
    rewrite (IH ltac:(discriminate) (JSON.set_field k x seen) fuel rest) by lia.
    reflexivity.
Qed.

Lemma in_order_items (items : list json) :
  fold_right (fun y rest => in_order y /\ rest) True items -> Forall in_order items.
Proof.
  induction items as [| y items IH]; cbn [fold_right]; [constructor |].
  intros [Hy Hitems]. constructor; [exact Hy | exact (IH Hitems)].
Qed.

Lemma in_order_fields (fields : list (string * json)) :
  fold_right (fun kv rest => in_order (snd kv) /\ rest) True fields ->
  Forall (fun kv => in_order (snd kv)) fields.
Proof.
  induction fields as [| kv fields IH]; cbn [fold_right]; [constructor |].
  intros [Hkv Hfields]. constructor; [exact Hkv | exact (IH Hfields)].
Qed.

Lemma concat_start (c : ascii) (s : string) (ts : list string) :
  exists b, String.concat "," (String c s :: ts) = String c b.
Proof.
  destruct ts as [| t' ts].
  - now exists s.
  - rewrite concat_comma_cons, append_cons. now eexists.
Qed.

Lemma bracketed (open close : ascii) (body rest : string) :
  (String open "" +:+ body +:+ String close "") +:+ rest
  = String open (body +:+ String close rest).
Proof.
  now rewrite !append_cons, append_nil_l, append_assoc, append_cons, append_nil_l.
Qed.

Lemma length_bracketed (open close : ascii) (body : string) :
  String.length (String open "" +:+ body +:+ String close "")
  = S (String.length body + 1).
Proof.
  rewrite append_cons, append_nil_l. cbn [String.length].
  now rewrite length_append.
Qed.

(** Reading what [write] wrote gives the value back, whatever delimiter
    follows it. *)
Lemma write_reads_back (x : json) :
  forall t, JSON.write x = Some t -> in_order x -> reads_back x t.
Proof.
  induction x as [| b | n | s | items IH | fields IH] using json_induction;
    intros t Hw Hord; cbn [JSON.write] in Hw.
  - injection Hw as <-. intros [| fuel] rest Hlen _; [cbn in Hlen; lia | reflexivity].
  - destruct b; injection Hw as <-;
      (intros [| fuel] rest Hlen _; [cbn in Hlen; lia | reflexivity]).
  - destruct (JSON.safe n) eqn:Hsafe; [| discriminate]. injection Hw as <-.
    intros fuel rest Hlen Hdel.
    destruct (decimal_head n) as (c & s & Hd & Hc).
    destruct fuel as [| fuel]; [rewrite Hd in Hlen; cbn in Hlen; lia |].
    rewrite Hd, append_cons, read_value_number by exact Hc.
    rewrite <- append_cons, <- Hd. now apply read_number_decimal.
  - injection Hw as <-. intros [| fuel] rest Hlen _; [cbn in Hlen; lia |].
    unfold JSON.quoted.
    rewrite append_cons, read_value_quote, append_assoc, append_cons, append_nil_l.
    now rewrite read_chars_quoted.
  - destruct (mapM JSON.write items) as [texts |] eqn:Hm; [| discriminate].
    cbn in Hw. injection Hw as <-.
    apply mapM_Some_1 in Hm. apply in_order_items in Hord.
    assert (Hback : Forall2 reads_back items texts).
    { clear -IH Hord Hm.
      induction Hm as [| y ty items texts Hy Hm IHm]; [constructor |].
      apply Forall_cons in IH as [IHy IH]. apply Forall_cons in Hord as [Hoy Hord].
      constructor; [exact (IHy ty Hy Hoy) | exact (IHm IH Hord)]. }
    intros fuel rest Hlen _.
    change "[" with (String "["%char "") in *. change "]" with (String "]"%char "") in *.
    rewrite length_bracketed in Hlen. rewrite bracketed.
    destruct fuel as [| fuel]; [lia |].
    destruct Hm as [| y ty items texts Hy Hm].
    + reflexivity.
    + destruct (write_start y ty Hy) as (c & s & -> & Hc).
      destruct (concat_start c s texts) as [b Hb].
      assert (Hfuel : weight (String c s :: texts) <= fuel).
      { rewrite <- length_concat_comma by discriminate. lia. }
      rewrite Hb, append_cons, read_value_bracket, <- append_cons, <- Hb by exact Hc.
      rewrite (read_items_texts _ _ Hback) by (discriminate || exact Hfuel).
      reflexivity.
  - destruct (mapM _ fields) as [texts |] eqn:Hm; [| discriminate].
    cbn in Hw. injection Hw as <-.
    apply mapM_Some_1 in Hm. destruct Hord as [Hown Hord].
    apply in_order_fields in Hord.
    assert (Hback : Forall2 member_reads_back fields texts).
    { clear -IH Hord Hm.
      induction Hm as [| kv text fields texts Hkv Hm IHm]; [constructor |].
      apply Forall_cons in IH as [IHkv IH]. apply Forall_cons in Hord as [Hokv Hord].
      constructor; [| exact (IHm IH Hord)].
      destruct (JSON.write (snd kv)) as [t |] eqn:Ht; [| discriminate].
      cbn in Hkv. injection Hkv as <-. exists t. split; [reflexivity |].
      exact (IHkv t eq_refl Hokv). }
    intros fuel rest Hlen _.
    change "{" with (String "{"%char "") in *. change "}" with (String "}"%char "") in *.
    rewrite length_bracketed in Hlen. rewrite bracketed.
    destruct fuel as [| fuel]; [lia |].
    destruct Hback as [| kv text fields texts Hkv Hback].
    + reflexivity.
    + assert (Hall : Forall2 member_reads_back (kv :: fields) (text :: texts))
        by (constructor; assumption).
      destruct Hkv as (t & -> & _).
      destruct (concat_start JSON.quote
                  (JSON.escape_all (fst kv) +:+ String JSON.quote "" +:+ ":" +:+ t)
                  texts) as [b Hb].
      assert (Htext : JSON.quoted (fst kv) +:+ ":" +:+ t
                      = String JSON.quote
                          (JSON.escape_all (fst kv) +:+ String JSON.quote ""
                           +:+ ":" +:+ t)).
      { unfold JSON.quoted. now rewrite append_cons, append_assoc. }
      assert (Hfuel : weight ((JSON.quoted (fst kv) +:+ ":" +:+ t) :: texts) <= fuel).
      { rewrite <- length_concat_comma by discriminate. lia. }
      pose proof (read_members_texts _ _ Hall ltac:(discriminate) [] fuel rest Hfuel)
        as Hread.
      fold (JSON.own_order (kv :: fields)) in Hread. rewrite Hown in Hread.
      rewrite Htext in Hread |- *. rewrite Hb in Hread |- *.
      rewrite append_cons in Hread |- *.
      rewrite read_value_brace, Hread. reflexivity.
Qed.

(** [JSON.read] undoes [JSON.write]. *)
Lemma read_write (x : json) (t : string) :
  JSON.write x = Some t -> in_order x -> JSON.read t = JSON.Read x "".
Proof.
  intros Hw Hord. unfold JSON.read.
  pose proof (write_reads_back x t Hw Hord (S (String.length t)) "") as Hback.
  rewrite append_nil_r in Hback. rewrite Hback by (lia || exact I).
  reflexivity.
Qed.

Lemma conforming_conforms :
  conforms Conforming.JSON_stringify Conforming.JSON_parse.
Proof.
  split; [| split].
  - intros x t _ Hw. unfold Conforming.JSON_stringify. now rewrite Hw.
  - intros t x rest Hr. unfold Conforming.JSON_parse. now rewrite Hr.
  - intros t Hr. unfold Conforming.JSON_parse. rewrite Hr. now eexists.
Qed.

(** On a platform that agrees with the model, [JSON.parse] gives back every
    value of the data model from the text [JSON.stringify] wrote for it. *)
Lemma parse_stringify (JSON_stringify : json -> string)
    (JSON_parse : string -> outcome json) (x : json) :
  conforms JSON_stringify JSON_parse -> representable x ->
  JSON_parse (JSON_stringify x) = Return x.
Proof.
  intros (Hstringify & Hparse & _) [Hord [t Hw]].
  rewrite (Hstringify x t Hord Hw).
  exact (Hparse t x "" (read_write x t Hw Hord)).
Qed.

(** What [fromJSON(b, getJSON(x))] is, case by case. *)
Lemma fromJSON_getJSON (JSON_stringify : json -> string)
    (JSON_parse : string -> outcome json) (P : Type) (b : P) (x : json) :
  conforms JSON_stringify JSON_parse -> representable x ->
  fromJSON JSON_parse P b (getJSON JSON_stringify x)
  = match x with
    | JNull => Throw (TypeError "Object.setPrototypeOf called on null or undefined")
    | JBool _ | JNumber _ | JString _ => Return (mk_jsvalue x None)
    | JArray _ | JObject _ => Return (mk_jsvalue x (Some b))
    end.
Proof.
  intros Hplatform Hx. unfold fromJSON, getJSON.
  rewrite (parse_stringify _ _ x Hplatform Hx).
  destruct x; reflexivity.
Qed.




(** [getJSON] on the values of the documentation's examples: the fields of
    an object are written in the order of its own properties. *)
Example documented_getJSON :
  getJSON Conforming.JSON_stringify (JArray [JNumber 1; JNumber 2; JNumber 3]) = "[1,2,3]"
  /\ getJSON Conforming.JSON_stringify
       (JObject [("width", JNumber 10); ("height", JNumber 20)])
     = "{" +:+ dquote +:+ "width" +:+ dquote +:+ ":10,"
           +:+ dquote +:+ "height" +:+ dquote +:+ ":20}".
Proof. split; reflexivity. Qed.

(** The example of the documentation of [fromJSON]. *)
Example documented_fromJSON :
  fromJSON Conforming.JSON_parse string "Circle.prototype"
    ("{" +:+ dquote +:+ "radius" +:+ dquote +:+ ":10}")
  = Return (mk_jsvalue (JObject [("radius", JNumber 10)]) (Some "Circle.prototype")).
Proof. reflexivity. Qed.

(** What the model reads and what it leaves out: white space is skipped, a
    key that is an array index is listed first, a repeated key keeps its
    place and takes the last value; a fraction is outside the data model,
    and text that is not JSON is malformed. *)
Example read_examples :
  JSON.read (" [ 1 , [ ] , -2 ] ") = JSON.Read (JArray [JNumber 1; JArray []; JNumber (-2)]) ""
  /\ JSON.read ("{" +:+ dquote +:+ "b" +:+ dquote +:+ ":1,"
                    +:+ dquote +:+ "2" +:+ dquote +:+ ":null,"
                    +:+ dquote +:+ "b" +:+ dquote +:+ ":true}")
     = JSON.Read (JObject [("2", JNull); ("b", JBool true)]) ""
  /\ JSON.read "0.5" = JSON.Unmodelled
  /\ JSON.read "9007199254740993" = JSON.Unmodelled
  /\ JSON.read "[1,]" = JSON.Malformed
  /\ JSON.read "01" = JSON.Malformed.
Proof. repeat split. Qed.

(** Text that is not JSON makes [fromJSON] throw the parser's error. *)
Lemma fromJSON_malformed (JSON_stringify : json -> string)
    (JSON_parse : string -> outcome json) (P : Type) (proto : P) (text : string) :
  conforms JSON_stringify JSON_parse ->
  JSON.read text = JSON.Malformed ->
  exists m, fromJSON JSON_parse P proto text = Throw (SyntaxError m).
Proof.
  intros (_ & _ & Hmalformed) Hread.
  destruct (Hmalformed text Hread) as [m Hm].
  exists m. unfold fromJSON. now rewrite Hm.
Qed.

(** ** [Rectangle] *)

(** C10: [Rectangle(width, height)] returns an object whose [width] is
    [width], whose [height] is [height] and whose [getArea()] returns
    [width * height], the product of the two doubles; [Rectangle] is among
    the exports of the module.  [new Rectangle(10, 20).getArea()] is 200. *)
Theorem Rectangle_fields_and_area :
  forall width height : float,
    Rectangle.width (Rectangle.Rectangle width height) = width
    /\ Rectangle.height (Rectangle.Rectangle width height) = height
    /\ Rectangle.getArea (Rectangle.Rectangle width height) = (width * height)%float
    /\ Rectangle.getArea (Rectangle.Rectangle 10 20) = 200%float
    /\ In "Rectangle" module_exports.
Proof.
  intros width height. repeat split. now left.
Qed.

(** * Further properties of the selector builder *)

(** ** Instances in the store *)

Lemma call_unallocated (h : heap) this K v :
  h !! this = None ->
  call K this v h = (Throw (TypeError "Cannot read properties of undefined"), h).
Proof.
  intros Hl.
  destruct K; cbn [call];
    unfold CreateSelector.element, CreateSelector.id, CreateSelector.class,
      CreateSelector.attr, CreateSelector.pseudoClass, CreateSelector.pseudoElement,
      CreateSelector.position, mbind, M_bind, bind, CreateSelector.read;
    rewrite Hl; reflexivity.
Qed.

(** What a call leaves in the store: the store itself, or the store with the
    instance of [this] replaced. *)
Lemma call_store (h : heap) this K v :
  snd (call K this v h) = h
  \/ exists o, snd (call K this v h) = <[this := o]> h.
Proof.
  destruct (h !! this) as [o |] eqn:Hl.
  - rewrite (call_run h this o K v Hl).
    destruct (refusal K o); [now left | right; eexists; reflexivity].
  - rewrite (call_unallocated h this K v Hl). now left.
Qed.

Lemma call_returns_this (h : heap) this K v r :
  fst (call K this v h) = Return r -> r = this.
Proof.
  destruct (h !! this) as [o |] eqn:Hl.
  - rewrite (call_run h this o K v Hl).
    destruct (refusal K o); cbn [fst]; congruence.
  - rewrite (call_unallocated h this K v Hl). discriminate.
Qed.

Lemma chain_store :
  forall (calls : list (Kind * string)) (this : ref) (h : heap),
    length (snd (chain this calls h)) = length h
    /\ (forall r, r <> this -> snd (chain this calls h) !! r = h !! r)
    /\ (forall r, fst (chain this calls h) = Return r -> r = this).
Proof.
  induction calls as [| [K v] rest IH]; intros this h; cbn [chain].
  - repeat split. now intros r [= <-].
  - unfold_bind.
    pose proof (call_store h this K v) as Hstore.
    pose proof (call_returns_this h this K v) as Hret.
    destruct (call K this v h) as [[r | e] h1]; cbn [fst snd] in *.
    + rewrite (Hret r eq_refl). destruct (IH this h1) as (Hlen & Hother & Hthis).
      rewrite Hlen. split; [| split].
      * destruct Hstore as [-> | [o ->]]; [reflexivity | apply length_insert].
      * intros r' Hne. rewrite (Hother r' Hne).
        destruct Hstore as [-> | [o ->]]; [reflexivity |].
        now apply list_lookup_insert_ne.
      * exact Hthis.
    + split; [| split].
      * destruct Hstore as [-> | [o ->]]; [reflexivity | apply length_insert].
      * intros r' Hne.
        destruct Hstore as [-> | [o ->]]; [reflexivity |].
        now apply list_lookup_insert_ne.
      * discriminate.
Qed.

(** A chain of calls on [this] keeps the number of instances, leaves every
    other instance as it was, and, when no call throws, returns [this]. *)
Theorem chain_frame :
  forall (calls : list (Kind * string)) (this : ref) (h : heap),
    length (snd (chain this calls h)) = length h
    /\ (forall r, r <> this -> snd (chain this calls h) !! r = h !! r)
    /\ (forall r, fst (chain this calls h) = Return r -> r = this).
Proof.
  intros calls this h.
  destruct (chain_store calls this h) as (Hlen & Hother & Hthis).
  split; [exact Hlen | split; [exact Hother | exact Hthis]].
Qed.

Lemma stringify_unallocated (h : heap) this :
  h !! this = None ->
  CreateSelector.stringify this h
  = (Throw (TypeError "Cannot read properties of undefined"), h).
Proof.
  intros Hl. unfold CreateSelector.stringify, mbind, M_bind, bind, CreateSelector.read.
  now rewrite Hl.
Qed.

Lemma stringify_agree :
  forall (s : selector) (h h' : heap),
    Forall (fun r => h !! r = h' !! r) (refs s) ->
    fst (stringify s h) = fst (stringify s h').
Proof.
  induction s as [this | s1 IH1 comb s2 IH2]; intros h h' Hagree; cbn [refs] in Hagree.
  - rewrite Forall_singleton in Hagree. cbn [stringify].
    destruct (h !! this) as [o |] eqn:Hl; symmetry in Hagree.
    + now rewrite (stringify_run h this o Hl), (stringify_run h' this o Hagree).
    + now rewrite (stringify_unallocated h this Hl), (stringify_unallocated h' this Hagree).
  - rewrite Forall_app in Hagree. destruct Hagree as [H1 H2].
    cbn [stringify]. unfold_bind.
    rewrite (stringify_eta s1 h), (stringify_eta s1 h'), (IH1 h h' H1).
    destruct (fst (stringify s1 h')) as [a | e]; [| reflexivity].
    rewrite (stringify_eta s2 h), (stringify_eta s2 h'), (IH2 h h' H2).
    destruct (fst (stringify s2 h')) as [b | e]; reflexivity.
Qed.

(** The rendering of a selector reads only the instances it refers to: two
    stores that agree on them give the same result, a string or an error. *)
Theorem stringify_local :
  forall (s : selector) (h h' : heap),
    Forall (fun r => h !! r = h' !! r) (refs s) ->
    fst (stringify s h) = fst (stringify s h')
    /\ snd (stringify s h) = h /\ snd (stringify s h') = h'.
Proof.
  intros s h h' Hagree.
  split; [exact (stringify_agree s h h' Hagree) |].
  split; apply stringify_pure.
Qed.

Lemma stringify_local_witness :
  fst (stringify (Combinator (Single 0) ">" (Single 0))
         [added KElement "ul" CreateSelector.fresh; added KElement "li" CreateSelector.fresh])
  = fst (stringify (Combinator (Single 0) ">" (Single 0))
           [added KElement "ul" CreateSelector.fresh]).
Proof.
  apply (proj1 (stringify_local (Combinator (Single 0) ">" (Single 0))
           [added KElement "ul" CreateSelector.fresh; added KElement "li" CreateSelector.fresh]
           [added KElement "ul" CreateSelector.fresh] ltac:(repeat constructor))).
Defined.

(** Nesting to the left or to the right renders alike: both give the three
    operands in order with the two tokens between them, and both stop at the
    same operand when one of them cannot be rendered. *)
Theorem combine_associative :
  forall (a b c : selector) (t1 t2 : string) (h : heap),
    stringify (Combinator (Combinator a t1 b) t2 c) h
    = stringify (Combinator a t1 (Combinator b t2 c)) h.
Proof.
  intros a b c t1 t2 h. cbn [stringify]. unfold_bind. unfold mret, M_ret, ret.
  rewrite (stringify_eta a h). destruct (fst (stringify a h)) as [x | e]; [| reflexivity].
  rewrite (stringify_eta b h). destruct (fst (stringify b h)) as [y | e]; [| reflexivity].
  rewrite (stringify_eta c h). destruct (fst (stringify c h)) as [z | e]; [| reflexivity].
  rewrite !append_assoc. reflexivity.
Qed.

(** ** The order invariant *)

Lemma ordered_spec (o : CreateSelector.t) :
  ordered o = true
  <-> (forall K, (rank_last o < rank K)%Z -> category K (CreateSelector.settings o) = []).
Proof.
  unfold ordered. rewrite forallb_forall. split.
  - intros Hall K Hlt.
    assert (HK : In K all_kinds) by (destruct K; cbn; tauto).
    specialize (Hall K HK). apply orb_true_iff in Hall.
    destruct Hall as [Hle | Hnil]; [apply Z.leb_le in Hle; lia |].
    now destruct (category K (CreateSelector.settings o)).
  - intros Hempty K _. apply orb_true_iff.
    destruct (Z.leb_spec (rank K) (rank_last o)) as [Hle | Hlt]; [now left | right].
    now rewrite (Hempty K Hlt).
Qed.

Lemma category_store (K K' : Kind) (v : string) (d : Settings.t) :
  category K' (store K v d)
  = if Kind_eqb K' K
    then (if singleton K then [v] else category K d ++ [v])
    else category K' d.
Proof. destruct K, K'; reflexivity. Qed.

Lemma above_empty (o : CreateSelector.t) K K' :
  ordered o = true -> refusal K o = None -> (rank K < rank K')%Z ->
  category K' (CreateSelector.settings o) = [].
Proof.
  intros Hord Href Hlt. apply refusal_None in Href. destruct Href as [Hle _].
  apply (proj1 (ordered_spec o) Hord). lia.
Qed.

Lemma self_empty (o : CreateSelector.t) K :
  ordered o = true -> refusal K o = None -> singleton K = true ->
  category K (CreateSelector.settings o) = [].
Proof.
  intros Hord Href HK. apply refusal_None in Href. destruct Href as [Hle Hnot].
  apply (proj1 (ordered_spec o) Hord).
  assert (rank K <> rank_last o) by (intros Heq; apply Hnot; now split). lia.
Qed.

Lemma ordered_added (o : CreateSelector.t) K v :
  ordered o = true -> refusal K o = None -> ordered (added K v o) = true.
Proof.
  intros Hord Href. apply ordered_spec. intros K' Hlt.
  rewrite rank_last_added in Hlt. cbn [added CreateSelector.settings].
  rewrite category_store.
  destruct (Kind_eqb_spec K' K) as [-> | _]; [lia |].
  exact (above_empty o K K' Hord Href Hlt).
Qed.

Lemma optional_group K (o : option string) :
  singleton K = true ->
  spec_optional K (nonempty o) = String.concat "" (map (piece K) (option_list o)).
Proof.
  intros HK. destruct o as [v |]; [| reflexivity].
  simpl. unfold piece. rewrite HK. cbn [andb].
  destruct (String.eqb v ""); reflexivity.
Qed.

Lemma render_groups (d : Settings.t) :
  spec_stringify (omit_empty d)
  = group KElement d +:+ group KId d +:+ group KClass d +:+ group KAttr d
    +:+ group KPseudoClass d +:+ group KPseudoElement d.
Proof.
  unfold spec_stringify, omit_empty, group.
  cbn [Settings.element Settings.id Settings.class Settings.attr
       Settings.pseudoClass Settings.pseudoElement category].
  rewrite !optional_group by reflexivity.
  rewrite !repeated_piece by reflexivity. reflexivity.
Qed.

Lemma group_empty K (d : Settings.t) : category K d = [] -> group K d = "".
Proof. unfold group. now intros ->. Qed.

Lemma group_store (K K' : Kind) (v : string) (d : Settings.t) :
  (singleton K = true -> category K d = []) ->
  group K' (store K v d)
  = if Kind_eqb K' K then group K d +:+ piece K v else group K' d.
Proof.
  intros Hself. unfold group. rewrite category_store.
  destruct (Kind_eqb_spec K' K) as [-> | _]; [| reflexivity].
  destruct (singleton K).
  - rewrite (Hself eq_refl). reflexivity.
  - rewrite map_app, concat_app. reflexivity.
Qed.

Lemma render_added (o : CreateSelector.t) K v :
  ordered o = true -> refusal K o = None ->
  spec_stringify (omit_empty (CreateSelector.settings (added K v o)))
  = spec_stringify (omit_empty (CreateSelector.settings o)) +:+ piece K v.
Proof.
  intros Hord Href. cbn [added CreateSelector.settings].
  rewrite !render_groups.
  rewrite !(group_store K) by (intros HK; exact (self_empty o K Hord Href HK)).
  pose proof (fun K' Hlt => group_empty K' _ (above_empty o K K' Hord Href Hlt)) as Habove.
  destruct K; cbn [Kind_eqb kind_name String.eqb Ascii.eqb Bool.eqb];
    rewrite ?(Habove KId) by reflexivity; rewrite ?(Habove KClass) by reflexivity;
    rewrite ?(Habove KAttr) by reflexivity; rewrite ?(Habove KPseudoClass) by reflexivity;
    rewrite ?(Habove KPseudoElement) by reflexivity;
    rewrite ?append_nil_r, ?append_nil_l, ?append_assoc, ?append_nil_r; reflexivity.
Qed.

Lemma pieces_cons K v (calls : list (Kind * string)) :
  pieces ((K, v) :: calls) = piece K v +:+ pieces calls.
Proof. unfold pieces. cbn [map fst snd]. apply concat_cons. Qed.

Lemma run_ordered (calls : list (Kind * string)) : forall o o',
  ordered o = true ->
  run calls o = (None, o') ->
  ordered o' = true
  /\ spec_stringify (omit_empty (CreateSelector.settings o'))
     = spec_stringify (omit_empty (CreateSelector.settings o)) +:+ pieces calls.
Proof.
  induction calls as [| [K v] rest IH]; intros o o' Hord; cbn [run].
  - intros [= <-]. split; [exact Hord |]. symmetry. apply append_nil_r.
  - destruct (refusal K o) eqn:Href; [discriminate |]. intros Hrun.
    destruct (IH _ _ (ordered_added o K v Hord Href) Hrun) as [Hord' Hrender].
    split; [exact Hord' |].
    rewrite Hrender, (render_added o K v Hord Href), pieces_cons, append_assoc.
    reflexivity.
Qed.

Lemma nondecreasing_tail (r : Z) (l : list Z) :
  nondecreasing (r :: l) = true -> nondecreasing l = true.
Proof.
  destruct l as [| a l]; [reflexivity |]. cbn [nondecreasing].
  intros H. apply andb_true_iff in H. apply H.
Qed.

Lemma run_sorted (calls : list (Kind * string)) : forall o,
  fst (run calls o) = None ->
  nondecreasing (rank_last o :: ranks calls) = true.
Proof.
  induction calls as [| [K v] rest IH]; intros o; cbn [run]; [reflexivity |].
  destruct (refusal K o) eqn:Href; [discriminate |]. intros Hrun.
  apply refusal_None in Href. destruct Href as [Hle _].
  cbn [ranks map fst nondecreasing]. apply andb_true_iff. split.
  - now apply Z.leb_le.
  - specialize (IH _ Hrun). now rewrite rank_last_added in IH.
Qed.

Lemma run_failure (calls : list (Kind * string)) : forall o e o',
  run calls o = (Some e, o') ->
  exists pre K v post,
    calls = pre ++ (K, v) :: post
    /\ run pre o = (None, o')
    /\ refusal K o' = Some e.
Proof.
  induction calls as [| [K v] rest IH]; intros o e o'; cbn [run]; [discriminate |].
  destruct (refusal K o) eqn:Href.
  - intros [= <- <-]. exists [], K, v, rest. repeat split. exact Href.
  - intros Hrun. destruct (IH _ _ _ Hrun) as (pre & K' & v' & post & -> & Hpre & Hfail).
    exists ((K, v) :: pre), K', v', post. repeat split.
    + cbn [run]. now rewrite Href.
    + exact Hfail.
Qed.

Lemma refusal_rank K o o' :
  rank_last o = rank_last o' -> refusal K o = refusal K o'.
Proof. unfold refusal. now intros ->. Qed.

Lemma run_kinds (calls : list (Kind * string)) : forall calls' o o',
  map fst calls = map fst calls' ->
  rank_last o = rank_last o' ->
  fst (run calls o) = fst (run calls' o').
Proof.
  induction calls as [| [K v] rest IH]; intros [| [K' v'] rest'] o o' Hkinds Hrank;
    try discriminate Hkinds; [reflexivity |].
  cbn [map fst] in Hkinds. injection Hkinds as <- Hrest. cbn [run].
  rewrite (refusal_rank K o o' Hrank).
  destruct (refusal K o'); [reflexivity |].
  apply IH; [exact Hrest | reflexivity].
Qed.

Lemma thrown_build (calls : list (Kind * string)) (h : heap) :
  thrown (fst (build calls h)) = fst (run calls CreateSelector.fresh).
Proof.
  rewrite build_run. now destruct (run calls CreateSelector.fresh) as [[e |] o].
Qed.

Lemma ordered_fresh : ordered CreateSelector.fresh = true.
Proof. reflexivity. Qed.

(** ** What the facade and the chains guarantee *)

(** Every facade method succeeds whatever the fragment is: it adds one
    instance at a reference that was free, leaves the store before it as it
    was, and the new selector holds exactly the one fragment and renders as
    its piece. *)
Theorem facade_allocates :
  forall (K : Kind) (v : string) (h : heap),
    exists o,
      builder K v h = (Return (length h), h ++ [o])
      /\ h !! length h = None
      /\ CreateSelector.lastElement o = kind_name K
      /\ (forall K', category K' (CreateSelector.settings o)
                     = if Kind_eqb K' K then [v] else [])
      /\ fst (stringify (Single (length h)) (h ++ [o])) = Return (piece K v).
Proof.
  intros K v h. exists (added K v CreateSelector.fresh).
  split; [apply builder_run |].
  split; [now apply lookup_ge_None |].
  split; [reflexivity |].
  split; [intros K'; destruct K, K'; reflexivity |].
  cbn [stringify]. rewrite (stringify_run _ _ _ (lookup_last h _)). cbn [fst].
  rewrite (render_added CreateSelector.fresh K v ordered_fresh (refusal_fresh K)).
  reflexivity.
Qed.

(** A call sequence is built without error exactly when its ranks are
    non-decreasing and element, id and pseudoElement each occur at most
    once. *)
Theorem accepted_iff :
  forall (calls : list (Kind * string)) (h : heap),
    (exists this h', build calls h = (Return this, h'))
    <-> nondecreasing (ranks calls) = true /\ singletons_once calls = true.
Proof.
  intros calls h. split.
  - intros (this & h' & Hbuild). rewrite build_run in Hbuild.
    destruct (run calls CreateSelector.fresh) as [[e |] o] eqn:Hrun; [discriminate |].
    assert (Hnone : fst (run calls CreateSelector.fresh) = None) by now rewrite Hrun.
    split.
    + exact (nondecreasing_tail _ _ (run_sorted calls _ Hnone)).
    + apply singletons_once_spec. intros K HK.
      destruct (run_accepts calls _ Hnone) as [_ Hone]. apply (Hone K HK).
  - intros [Hnd Honce]. destruct (valid_run calls Hnd Honce) as (o & Hrun & _).
    exists (length h), (h ++ [o]). now rewrite build_run, Hrun.
Qed.

(** When a call sequence throws, the error is OrderViolation or
    DuplicateSingletonError, it comes from the first call that [position]
    refuses, and the selector keeps the fragments of the calls before it:
    it renders as their pieces in call order. *)
Theorem failure_keeps_prefix :
  forall (calls : list (Kind * string)) (h h' : heap) (e : Error),
    build calls h = (Throw e, h') ->
    (e = OrderViolation \/ e = DuplicateSingletonError)
    /\ exists pre K v post o,
         calls = pre ++ (K, v) :: post
         /\ build pre h = (Return (length h), h ++ [o])
         /\ call K (length h) v (h ++ [o]) = (Throw e, h ++ [o])
         /\ h' = h ++ [o]
         /\ fst (stringify (Single (length h)) h') = Return (pieces pre).
Proof.
  intros calls h h' e. rewrite build_run.
  destruct (run calls CreateSelector.fresh) as [[e' |] o] eqn:Hrun; [| discriminate].
  intros [= <- <-]. split.
  - apply (run_error_cases calls CreateSelector.fresh). now rewrite Hrun.
  - destruct (run_failure calls _ _ _ Hrun) as (pre & K & v & post & Hcalls & Hpre & Hfail).
    exists pre, K, v, post, o. split; [exact Hcalls |].
    split; [now rewrite build_run, Hpre |].
    split; [now rewrite (call_run _ _ _ K v (lookup_last h o)), Hfail |].
    split; [reflexivity |].
    cbn [stringify]. rewrite (stringify_run _ _ _ (lookup_last h o)). cbn [fst].
    destruct (run_ordered pre _ _ ordered_fresh Hpre) as [_ ->]. reflexivity.
Qed.

Lemma failure_keeps_prefix_witness :
  (OrderViolation = OrderViolation \/ OrderViolation = DuplicateSingletonError)
  /\ exists pre K v post o,
       [(KId, "main"); (KClass, "a"); (KElement, "div"); (KClass, "b")]
       = pre ++ (K, v) :: post
       /\ build pre [] = (Return (length ([] : heap)), [] ++ [o])
       /\ call K (length ([] : heap)) v ([] ++ [o]) = (Throw OrderViolation, [] ++ [o])
       /\ [added KClass "a" (added KId "main" CreateSelector.fresh)] = [] ++ [o]
       /\ fst (stringify (Single (length ([] : heap)))
                 [added KClass "a" (added KId "main" CreateSelector.fresh)])
          = Return (pieces pre).
Proof.
  apply (failure_keeps_prefix
           [(KId, "main"); (KClass, "a"); (KElement, "div"); (KClass, "b")] []
           [added KClass "a" (added KId "main" CreateSelector.fresh)] OrderViolation).
  reflexivity.
Defined.

(** Whether a call sequence is accepted, and the error it throws otherwise,
    depend on the kinds of the calls only, never on the fragments passed. *)
Theorem error_depends_on_kinds :
  forall (calls calls' : list (Kind * string)) (h h' : heap),
    map fst calls = map fst calls' ->
    thrown (fst (build calls h)) = thrown (fst (build calls' h')).
Proof.
  intros calls calls' h h' Hkinds. rewrite !thrown_build.
  now apply run_kinds.
Qed.

Lemma error_depends_on_kinds_witness :
  thrown (fst (build [(KId, "a"); (KElement, "b")] []))
  = thrown (fst (build [(KId, ""); (KElement, "x y")] [CreateSelector.fresh])).
Proof.
  apply (error_depends_on_kinds [(KId, "a"); (KElement, "b")]
           [(KId, ""); (KElement, "x y")] [] [CreateSelector.fresh]).
  reflexivity.
Defined.

Lemma call_accepted (h h' : heap) this o K v :
  h !! this = Some o ->
  call K this v h = (Return this, h') ->
  refusal K o = None /\ h' = <[this := added K v o]> h.
Proof.
  intros Hl. rewrite (call_run h this o K v Hl).
  destruct (refusal K o); [discriminate |]. intros [= <-]. now split.
Qed.

Lemma call_renders (h h' : heap) this o K v :
  h !! this = Some o ->
  ordered o = true ->
  call K this v h = (Return this, h') ->
  fst (stringify (Single this) h)
  = Return (spec_stringify (omit_empty (CreateSelector.settings o)))
  /\ fst (stringify (Single this) h')
     = Return (spec_stringify (omit_empty (CreateSelector.settings o)) +:+ piece K v).
Proof.
  intros Hl Hord Hcall.
  destruct (call_accepted h h' this o K v Hl Hcall) as [Href ->].
  cbn [stringify]. rewrite (stringify_run h this o Hl).
  rewrite (stringify_run _ this (added K v o)
             (list_lookup_insert_eq _ _ _ (lookup_lt_Some _ _ _ Hl))).
  cbn [fst]. split; [reflexivity |].
  now rewrite (render_added o K v Hord Href).
Qed.

(** On a selector that keeps the order invariant, an accepted call appends
    the piece of its fragment to the end of the rendering. *)
Theorem call_appends_piece :
  forall (h h' : heap) (this : ref) (o : CreateSelector.t) (K : Kind) (v : string),
    h !! this = Some o ->
    ordered o = true ->
    call K this v h = (Return this, h') ->
    exists s,
      fst (stringify (Single this) h) = Return s
      /\ fst (stringify (Single this) h') = Return (s +:+ piece K v).
Proof.
  intros h h' this o K v Hl Hord Hcall.
  exists (spec_stringify (omit_empty (CreateSelector.settings o))).
  exact (call_renders h h' this o K v Hl Hord Hcall).
Qed.

Lemma call_appends_piece_witness :
  exists s,
    fst (stringify (Single 0) [added KClass "a" (added KElement "div" CreateSelector.fresh)])
    = Return s
    /\ fst (stringify (Single 0)
              [added KClass "b" (added KClass "a" (added KElement "div" CreateSelector.fresh))])
       = Return (s +:+ piece KClass "b").
Proof.
  apply (call_appends_piece
           [added KClass "a" (added KElement "div" CreateSelector.fresh)]
           [added KClass "b" (added KClass "a" (added KElement "div" CreateSelector.fresh))]
           0 (added KClass "a" (added KElement "div" CreateSelector.fresh)) KClass "b");
    reflexivity.
Defined.

(** A selector built without error renders as the pieces of its calls, in
    the order of the calls. *)
Theorem rendering_in_call_order :
  forall (calls : list (Kind * string)) (h h' : heap) (this : ref),
    build calls h = (Return this, h') ->
    stringify (Single this) h' = (Return (pieces calls), h').
Proof.
  intros calls h h' this. rewrite build_run.
  destruct (run calls CreateSelector.fresh) as [[e |] o] eqn:Hrun; [discriminate |].
  intros [= <- <-]. cbn [stringify].
  rewrite (stringify_run _ _ _ (lookup_last h o)).
  destruct (run_ordered calls _ _ ordered_fresh Hrun) as [_ ->]. reflexivity.
Qed.

Lemma rendering_in_call_order_witness :
  stringify (Single 0)
    [added KPseudoClass "hover" (added KAttr "href" (added KElement "a" CreateSelector.fresh))]
  = (Return (pieces [(KElement, "a"); (KAttr, "href"); (KPseudoClass, "hover")]),
     [added KPseudoClass "hover" (added KAttr "href" (added KElement "a" CreateSelector.fresh))]).
Proof.
  apply (rendering_in_call_order
           [(KElement, "a"); (KAttr, "href"); (KPseudoClass, "hover")] [] _ 0).
  reflexivity.
Defined.

Lemma option_list_last {A : Type} (l : list A) :
  length l <= 1 -> option_list (last l) = l.
Proof. destruct l as [| x [| y l]]; cbn; intros; (reflexivity || lia). Qed.

Lemma run_lastElement (calls : list (Kind * string)) (o o' : CreateSelector.t) :
  run calls o = (None, o') ->
  CreateSelector.lastElement o'
  = from_option (fun c => kind_name (fst c)) (CreateSelector.lastElement o) (last calls).
Proof.
  destruct calls as [| c calls] using rev_ind.
  - now intros [= <-].
  - destruct c as [K v]. rewrite run_app, last_snoc.
    destruct (run calls o) as [[e |] o1]; [discriminate |].
    cbn [run]. destruct (refusal K o1); [discriminate |]. now intros [= <-].
Qed.

(** A selector built without error holds, for every kind, exactly the
    fragments its calls passed for that kind, in call order: nothing is
    dropped, merged or reordered; and [lastElement] names the kind of the
    last call. *)
Theorem settings_hold_fragments :
  forall (calls : list (Kind * string)) (h h' : heap) (this : ref),
    build calls h = (Return this, h') ->
    exists o,
      h' !! this = Some o
      /\ (forall K, category K (CreateSelector.settings o) = fragments K calls)
      /\ CreateSelector.lastElement o
         = from_option (fun c => kind_name (fst c)) "" (last calls).
Proof.
  intros calls h h' this. rewrite build_run.
  destruct (run calls CreateSelector.fresh) as [[e |] o] eqn:Hrun; [discriminate |].
  intros [= <- <-]. exists o. split; [apply lookup_last |].
  assert (Hnone : fst (run calls CreateSelector.fresh) = None) by now rewrite Hrun.
  split.
  - pose proof (run_settings calls _ Hnone) as Hset. rewrite Hrun in Hset.
    cbn [snd] in Hset.
    destruct (stores_fields calls) as (He & Hi & Hc & Ha & Hp & Hpe).
    destruct (run_accepts calls _ Hnone) as [_ Hone].
    intros K. rewrite Hset.
    destruct K; cbn [category]; rewrite ?He, ?Hi, ?Hc, ?Ha, ?Hp, ?Hpe;
      try reflexivity; apply option_list_last; apply Hone; reflexivity.
  - exact (run_lastElement calls _ _ Hrun).
Qed.

Lemma settings_hold_fragments_witness :
  exists o,
    [added KClass "b" (added KClass "a" (added KId "x" CreateSelector.fresh))] !! 0 = Some o
    /\ (forall K, category K (CreateSelector.settings o)
                  = fragments K [(KId, "x"); (KClass, "a"); (KClass, "b")])
    /\ CreateSelector.lastElement o
       = from_option (fun c => kind_name (fst c)) ""
           (last [(KId, "x"); (KClass, "a"); (KClass, "b")]).
Proof.
  apply (settings_hold_fragments [(KId, "x"); (KClass, "a"); (KClass, "b")] [] _ 0).
  reflexivity.
Defined.

Lemma call_keeps_ordered (h : heap) this K v :
  Forall (fun o => ordered o = true) h ->
  Forall (fun o => ordered o = true) (snd (call K this v h)).
Proof.
  intros Hall. destruct (h !! this) as [o |] eqn:Hl.
  - rewrite (call_run h this o K v Hl).
    destruct (refusal K o) eqn:Href; [exact Hall |]. cbn [snd].
    apply Forall_insert; [exact Hall |].
    apply ordered_added; [| exact Href].
    exact (Forall_lookup_1 _ _ _ _ Hall Hl).
  - now rewrite (call_unallocated h this K v Hl).
Qed.

(** The order invariant is kept by everything the builder does: if no
    instance of the store holds a fragment in a category ranked above its
    last added kind, the same is true after any facade call, any chain of
    calls on any reference, and any whole call sequence, thrown or not. *)
Theorem ordered_kept :
  forall h : heap,
    Forall (fun o => ordered o = true) h ->
    (forall K v, Forall (fun o => ordered o = true) (snd (builder K v h)))
    /\ (forall this calls, Forall (fun o => ordered o = true) (snd (chain this calls h)))
    /\ (forall calls, Forall (fun o => ordered o = true) (snd (build calls h))).
Proof.
  assert (Hbuilder : forall (h : heap) K v,
    Forall (fun o => ordered o = true) h ->
    Forall (fun o => ordered o = true) (snd (builder K v h))).
  { intros h K v Hall. rewrite builder_run. cbn [snd].
    apply Forall_app. split; [exact Hall |]. apply Forall_singleton.
    exact (ordered_added _ K v ordered_fresh (refusal_fresh K)). }
  assert (Hchain : forall calls this (h : heap),
    Forall (fun o => ordered o = true) h ->
    Forall (fun o => ordered o = true) (snd (chain this calls h))).
  { induction calls as [| [K v] rest IH]; intros this h Hall; cbn [chain]; [exact Hall |].
    unfold_bind. pose proof (call_keeps_ordered h this K v Hall) as Hcall.
    destruct (call K this v h) as [[r | e] h1]; cbn [snd] in Hcall |- *;
      [now apply IH | exact Hcall]. }
  intros h Hall. split; [| split].
  - intros K v. now apply Hbuilder.
  - intros this calls. now apply Hchain.
  - intros [| [K v] rest]; cbn [build].
    + cbn. apply Forall_app. split; [exact Hall |]. now apply Forall_singleton.
    + unfold_bind. pose proof (Hbuilder h K v Hall) as Hb.
      destruct (builder K v h) as [[r | e] h1]; cbn [snd] in Hb |- *;
        [now apply Hchain | exact Hb].
Qed.

Lemma ordered_kept_witness :
  Forall (fun o => ordered o = true)
    (snd (chain 0 [(KClass, "a"); (KId, "late"); (KClass, "b")]
            [added KId "main" CreateSelector.fresh])).
Proof.
  apply (proj1 (proj2 (ordered_kept [added KId "main" CreateSelector.fresh]
                         ltac:(repeat constructor)))).
Defined.

(** A combinator holds its operands by reference: after an accepted call on
    an operand, a combinator built before the call renders that operand with
    the new piece appended and the other operand as before, whether the
    called instance is the left operand, the right operand, or both. *)
Theorem combinator_sees_later_calls :
  forall (h h' : heap) (this : ref) (o : CreateSelector.t) (K : Kind) (v : string)
         (s : selector) (t a b : string),
    h !! this = Some o ->
    ordered o = true ->
    call K this v h = (Return this, h') ->
    Forall (fun r => r <> this) (refs s) ->
    fst (stringify (Single this) h) = Return a ->
    fst (stringify s h) = Return b ->
    fst (stringify (Combinator (Single this) t s) h')
    = Return ((a +:+ piece K v) +:+ " " +:+ t +:+ " " +:+ b)
    /\ fst (stringify (Combinator s t (Single this)) h')
       = Return (b +:+ " " +:+ t +:+ " " +:+ (a +:+ piece K v))
    /\ fst (stringify (Combinator (Single this) t (Single this)) h')
       = Return ((a +:+ piece K v) +:+ " " +:+ t +:+ " " +:+ (a +:+ piece K v)).
Proof.
  intros h h' this o K v s t a b Hl Hord Hcall Hrefs Ha Hb.
  destruct (call_renders h h' this o K v Hl Hord Hcall) as (Ha' & Hnew).
  rewrite Ha in Ha'. injection Ha' as ->.
  destruct (call_accepted h h' this o K v Hl Hcall) as [_ Hh'].
  assert (Hs : fst (stringify s h') = Return b).
  { rewrite <- Hb. apply stringify_agree. subst h'.
    eapply Forall_impl; [exact Hrefs |]. intros r Hne. cbn beta in Hne |- *.
    apply list_lookup_insert_ne. congruence. }
  assert (Hpair : forall (l r : selector) (x y : string),
    fst (stringify l h') = Return x -> fst (stringify r h') = Return y ->
    fst (stringify (Combinator l t r) h') = Return (x +:+ " " +:+ t +:+ " " +:+ y)).
  { intros l r x y Hx Hy.
    change (stringify (Combinator l t r) h')
      with ((x' ← stringify l; y' ← stringify r;
             mret (x' +:+ " " +:+ t +:+ " " +:+ y')) h').
    unfold_bind. rewrite (stringify_eta l h'), Hx, (stringify_eta r h'), Hy.
    reflexivity. }
  split; [| split].
  - exact (Hpair (Single this) s _ _ Hnew Hs).
  - exact (Hpair s (Single this) _ _ Hs Hnew).
  - exact (Hpair (Single this) (Single this) _ _ Hnew Hnew).
Qed.

Lemma combinator_sees_later_calls_witness :
  fst (stringify (Combinator (Single 0) ">" (Single 1))
         [added KClass "open" (added KElement "ul" CreateSelector.fresh);
          added KElement "li" CreateSelector.fresh])
  = Return (("ul" +:+ piece KClass "open") +:+ " " +:+ ">" +:+ " " +:+ "li")
  /\ fst (stringify (Combinator (Single 1) ">" (Single 0))
            [added KClass "open" (added KElement "ul" CreateSelector.fresh);
             added KElement "li" CreateSelector.fresh])
     = Return ("li" +:+ " " +:+ ">" +:+ " " +:+ ("ul" +:+ piece KClass "open"))
  /\ fst (stringify (Combinator (Single 0) ">" (Single 0))
            [added KClass "open" (added KElement "ul" CreateSelector.fresh);
             added KElement "li" CreateSelector.fresh])
     = Return (("ul" +:+ piece KClass "open") +:+ " " +:+ ">" +:+ " "
               +:+ ("ul" +:+ piece KClass "open")).
Proof.
  apply (combinator_sees_later_calls
           [added KElement "ul" CreateSelector.fresh; added KElement "li" CreateSelector.fresh]
           _ 0 (added KElement "ul" CreateSelector.fresh) KClass "open"
           (Single 1) ">" "ul" "li");
    try reflexivity.
  repeat constructor. discriminate.
Defined.

(** Selectors do not share state: a chain of calls on one instance, thrown
    or not, leaves the rendering of every selector that does not refer to
    that instance as it was. *)
Theorem selectors_independent :
  forall (s : selector) (this : ref) (calls : list (Kind * string)) (h : heap),
    Forall (fun r => r <> this) (refs s) ->
    fst (stringify s (snd (chain this calls h))) = fst (stringify s h).
Proof.
  intros s this calls h Hrefs. apply stringify_agree.
  eapply Forall_impl; [exact Hrefs |]. intros r Hne. cbn beta in Hne |- *.
  now apply (chain_store calls this h).
Qed.

Lemma selectors_independent_witness :
  fst (stringify (Single 1)
         (snd (chain 0 [(KClass, "x"); (KElement, "y")]
                 [added KId "a" CreateSelector.fresh; added KId "b" CreateSelector.fresh])))
  = fst (stringify (Single 1)
           [added KId "a" CreateSelector.fresh; added KId "b" CreateSelector.fresh]).
Proof.
  apply (selectors_independent (Single 1) 0 [(KClass, "x"); (KElement, "y")]
           [added KId "a" CreateSelector.fresh; added KId "b" CreateSelector.fresh]).
  repeat constructor. discriminate.
Defined.

(** ** [fromJSON] on any text *)

(** [fromJSON(proto, text)] returns a value exactly when the text parses to
    something other than [null]: the value's data is what the parser
    returned, and its prototype is [proto] when that is an object or an
    array and untouched otherwise.  A parse error is passed on as it is, and
    text that parses to [null] gives a [TypeError]. *)
Theorem fromJSON_cases :
  forall (JSON_parse : string -> outcome json) (P : Type) (proto : P) (text : string),
    (forall v, fromJSON JSON_parse P proto text = Return v <->
               JSON_parse text = Return (own v) /\ own v <> JNull
               /\ prototype v = if is_Object (own v) then Some proto else None)
    /\ (forall e, JSON_parse text = Throw e ->
                  fromJSON JSON_parse P proto text = Throw e)
    /\ (JSON_parse text = Return JNull ->
        exists m, fromJSON JSON_parse P proto text = Throw (TypeError m)).
Proof.
  intros JSON_parse P proto text. unfold fromJSON.
  destruct (JSON_parse text) as [x | e]; cbn.
  - split; [| split].
    + intros [x' p]. cbn [own prototype]. split.
      * destruct x; cbn; intros [= <- <-]; repeat split; discriminate.
      * intros ([= <-] & Hnull & ->). destruct x; try reflexivity. congruence.
    + discriminate.
    + intros [= ->]. eexists. reflexivity.
  - split; [| split].
    + intros v. split; [discriminate | intros [[=] _]].
    + now intros e' [= <-].
    + discriminate.
Qed.
